(** * Rate-limit configuration client of the dashboard (frontend/src/lib)

    A shallow embedding of [loadRateLimitsConfig], [saveConfig] and
    [resetProviderLimits], the three functions through which the dashboard
    reads and writes the tables [rate_limit_configs] and [rate_limit_status].

    JavaScript numbers are IEEE 754 binary64 values.  The finite ones are
    modelled as rationals, every arithmetic operation being the exact
    operation on rationals followed by rounding to the nearest binary64 value
    (ties to even).  Signed zero is not distinguished: the code never divides
    by a zero and a negative zero prints as 0. *)

From Stdlib Require Import ZArith QArith Qround Qpower Qabs Lia Lqa.
From Stdlib Require Import Ascii String List DecimalString DecimalN.
From stdpp Require Import gmap strings.

(** ** Rounding to binary64 *)

Module Binary64.

Local Open Scope Q_scope.

(** Nearest integer, ties to the even one. *)
Definition rne (q : Q) : Z :=
  let f := Qfloor q in
  match Qcompare (q - inject_Z f) (1 # 2) with
  | Lt => f
  | Gt => (f + 1)%Z
  | Eq => if Z.even f then f else (f + 1)%Z
  end.

(** [ilog2 x] is the integer [k] with [2^k <= x < 2^(k+1)], for [0 < x]. *)
Definition ilog2 (x : Q) : Z :=
  let k := (Z.log2 (Qnum x) - Z.log2 (Zpos (Qden x)))%Z in
  if Qle_bool (2 ^ k) x then k else (k - 1)%Z.

(** Exponent of the last place of a binary64 value near [x]: 53 significant
    bits, and subnormal numbers below [2^-1022]. *)
Definition fexp (x : Q) : Z := Z.max (ilog2 x - 52) (-1074).

Definition round_pos (x : Q) : Q :=
  Qred (inject_Z (rne (x * 2 ^ (- fexp x))) * 2 ^ fexp x).

(** Rounding with an unbounded exponent range. *)
Definition round64 (x : Q) : Q :=
  match Qcompare x 0 with
  | Eq => 0
  | Gt => round_pos x
  | Lt => - round_pos (- x)
  end.

End Binary64.

(** ** JavaScript values *)

Module JS.

Import Binary64.

(** A Number: a finite binary64 value, or one of the three special ones. *)
Inductive number : Type :=
  | Fin (q : Q)
  | NaN
  | PInf
  | NInf.

(** The Number nearest to a rational; magnitudes that round to [2^1024] or
    more overflow to an infinity. *)
Definition b64 (x : Q) : number :=
  let y := round64 x in
  if Qle_bool (2 ^ 1024) y then PInf
  else if Qle_bool y (- 2 ^ 1024) then NInf
  else Fin y.

Definition Qsgn (x : Q) : Z := Z.sgn (Qnum x).

Definition inf_of_sign (s : Z) : number :=
  match s with
  | Z0 => NaN
  | Zpos _ => PInf
  | Zneg _ => NInf
  end.

Definition sign_of (a : number) : option Z :=
  match a with
  | Fin x => Some (Qsgn x)
  | PInf => Some 1%Z
  | NInf => Some (-1)%Z
  | NaN => None
  end.

(** [a * b] *)
Definition mul (a b : number) : number :=
  match a, b with
  | Fin x, Fin y => b64 (x * y)
  | _, _ =>
      match sign_of a, sign_of b with
      | Some s, Some t => inf_of_sign (s * t)
      | _, _ => NaN
      end
  end.

(** [a / b].  A finite value divided by zero takes the sign of the dividend,
    the divisor being read as a positive zero. *)
Definition div (a b : number) : number :=
  match a, b with
  | Fin x, Fin y => if Qeq_bool y 0 then inf_of_sign (Qsgn x) else b64 (x / y)
  | Fin _, (PInf | NInf) => Fin 0
  | PInf, Fin y => if Qle_bool 0 y then PInf else NInf
  | NInf, Fin y => if Qle_bool 0 y then NInf else PInf
  | _, _ => NaN
  end.

(** [a - b] *)
Definition sub (a b : number) : number :=
  match a, b with
  | Fin x, Fin y => b64 (x - y)
  | NaN, _ | _, NaN => NaN
  | PInf, PInf | NInf, NInf => NaN
  | PInf, _ | _, NInf => PInf
  | NInf, _ | _, PInf => NInf
  end.

(** [Math.max(a, b)] and [Math.min(a, b)] *)
Definition Math_max (a b : number) : number :=
  match a, b with
  | NaN, _ | _, NaN => NaN
  | PInf, _ | _, PInf => PInf
  | NInf, c | c, NInf => c
  | Fin x, Fin y => if Qle_bool x y then b else a
  end.

Definition Math_min (a b : number) : number :=
  match a, b with
  | NaN, _ | _, NaN => NaN
  | NInf, _ | _, NInf => NInf
  | PInf, c | c, PInf => c
  | Fin x, Fin y => if Qle_bool x y then a else b
  end.

(** [Math.round(a)]: the nearest integer, ties towards positive infinity. *)
Definition Math_round (a : number) : number :=
  match a with
  | Fin x => Fin (inject_Z (Qfloor (x + (1 # 2))))
  | _ => a
  end.

(** A property of an object read from JSON or from the interface state:
    absent (it reads as [undefined]), [null], or a value. *)
Inductive maybe (A : Type) : Type :=
  | undefined
  | null
  | val (a : A).
Arguments undefined {A}.
Arguments null {A}.
Arguments val {A} a.

(** [a ?? b] *)
Definition nullish {A : Type} (a : maybe A) (b : A) : A :=
  match a with
  | val x => x
  | _ => b
  end.

(** The value of a property when it is truthy: a number other than zero, a
    string other than the empty one. *)
Definition truthy_num (a : maybe Q) : option Q :=
  match a with
  | val x => if Qeq_bool x 0 then None else Some x
  | _ => None
  end.

Definition truthy_str (a : maybe string) : option string :=
  match a with
  | val s => if String.eqb s "" then None else Some s
  | _ => None
  end.

(** A primitive value of the interface state. *)
Inductive value : Type :=
  | VUndefined
  | VNull
  | VBool (b : bool)
  | VNum (n : number)
  | VStr (s : string).

Definition truthy (v : value) : bool :=
  match v with
  | VUndefined | VNull => false
  | VBool b => b
  | VNum (Fin x) => negb (Qeq_bool x 0)
  | VNum NaN => false
  | VNum _ => true
  | VStr s => negb (String.eqb s "")
  end.

(** *** Strings

    Strings are sequences of bytes; letter case is mapped on the ASCII
    letters only. *)

Local Open Scope string_scope.

Definition is_upper (c : ascii) : bool :=
  ((65 <=? nat_of_ascii c) && (nat_of_ascii c <=? 90))%nat.

Definition is_lower (c : ascii) : bool :=
  ((97 <=? nat_of_ascii c) && (nat_of_ascii c <=? 122))%nat.

Definition lower_char (c : ascii) : ascii :=
  if is_upper c then ascii_of_nat (nat_of_ascii c + 32) else c.

Definition upper_char (c : ascii) : ascii :=
  if is_lower c then ascii_of_nat (nat_of_ascii c - 32) else c.

Fixpoint map_chars (f : ascii -> ascii) (s : string) : string :=
  match s with
  | EmptyString => EmptyString
  | String c r => String (f c) (map_chars f r)
  end.

Definition toLowerCase : string -> string := map_chars lower_char.
Definition toUpperCase : string -> string := map_chars upper_char.

(** [s.charAt(0)] and [s.slice(1)] *)
Definition charAt0 (s : string) : string :=
  match s with
  | EmptyString => EmptyString
  | String c _ => String c EmptyString
  end.

Definition slice1 (s : string) : string :=
  match s with
  | EmptyString => EmptyString
  | String _ r => r
  end.

(** [s.startsWith(p)] *)
Fixpoint startsWith (s p : string) : bool :=
  match p, s with
  | EmptyString, _ => true
  | String a p', String b s' => Ascii.eqb a b && startsWith s' p'
  | String _ _, EmptyString => false
  end.

Fixpoint repeat_char (c : ascii) (n : nat) : string :=
  match n with
  | O => EmptyString
  | S k => String c (repeat_char c k)
  end.

Fixpoint take (n : nat) (s : string) : string :=
  match n, s with
  | S k, String c r => String c (take k r)
  | _, _ => EmptyString
  end.

Fixpoint drop (n : nat) (s : string) : string :=
  match n, s with
  | S k, String _ r => drop k r
  | _, _ => s
  end.

(** Decimal digits of a natural number. *)
Definition decimal (n : Z) : string :=
  NilZero.string_of_uint (N.to_uint (Z.to_N n)).

(** *** Numbers to strings *)

(** [ilog10 x] is the integer [k] with [10^k <= x < 10^(k+1)], for [0 < x];
    the search starts from an estimate taken from the binary logarithm. *)
Fixpoint ilog10_from (fuel : nat) (x : Q) (k : Z) : Z :=
  match fuel with
  | O => k
  | S f =>
      if Qle_bool (10 ^ (k + 1))%Q x then ilog10_from f x (k + 1)%Z
      else if Qle_bool (10 ^ k)%Q x then k
      else ilog10_from f x (k - 1)%Z
  end.

Definition ilog10 (x : Q) : Z :=
  ilog10_from 4 x (ilog2 x * 30103 / 100000)%Z.

(** The value [s * 10^(n-k)] of a decimal representation with [k] digits
    [s] and decimal exponent [n]. *)
Definition repr_value (k : Z) (c : Z * Z) : Q :=
  (inject_Z (fst c) * 10 ^ (snd c - k))%Q.

Definition repr_ok (x : Q) (k : Z) (c : Z * Z) : bool :=
  (10 ^ (k - 1) <=? fst c)%Z && (fst c <? 10 ^ k)%Z
  && Qeq_bool (round64 (repr_value k c)) x.

Definition closer (x : Q) (k : Z) (c d : Z * Z) : Z * Z :=
  match Qcompare (Qabs (repr_value k c - x)) (Qabs (repr_value k d - x)) with
  | Lt => c
  | Gt => d
  | Eq => if Z.even (fst c) then c else d
  end.

Definition candidates (x : Q) (k : Z) : list (Z * Z) :=
  let n := (ilog10 x + 1)%Z in
  let f := Qfloor (x / 10 ^ (n - k))%Q in
  (f, n) :: ((f + 1)%Z, n) :: ((10 ^ (k - 1))%Z, (n + 1)%Z) :: nil.

Definition pick (x : Q) (k : Z) : option (Z * Z) :=
  match List.filter (repr_ok x k) (candidates x k) with
  | nil => None
  | c :: r => Some (List.fold_left (closer x k) r c)
  end.

(** The shortest digit string that reads back as [x] (Number::toString,
    step 5), searched from [k] digits on; 17 digits always suffice for a
    binary64 value. *)
Fixpoint shortest (fuel : nat) (x : Q) (k : Z) : Z * Z * Z :=
  match fuel with
  | O => (rne (x / 10 ^ (ilog10 x + 1 - k))%Q, (ilog10 x + 1)%Z, k)
  | S f =>
      match pick x k with
      | Some c => (fst c, snd c, k)
      | None => shortest f x (k + 1)%Z
      end
  end.

Definition format_digits (s n k : Z) : string :=
  let ds := decimal s in
  if ((k <=? n) && (n <=? 21))%Z then
    ds ++ repeat_char "0" (Z.to_nat (n - k))
  else if ((0 <? n) && (n <=? 21))%Z then
    take (Z.to_nat n) ds ++ "." ++ drop (Z.to_nat n) ds
  else if ((-6 <? n) && (n <=? 0))%Z then
    "0." ++ repeat_char "0" (Z.to_nat (- n)) ++ ds
  else
    let e := (n - 1)%Z in
    let es := (if (e <? 0)%Z then "-" else "+") ++ decimal (Z.abs e) in
    if (k =? 1)%Z then ds ++ "e" ++ es
    else take 1 ds ++ "." ++ drop 1 ds ++ "e" ++ es.

Definition positive_toString (x : Q) : string :=
  let '(s, n, k) := shortest 17 x 1 in format_digits s n k.

(** [String(a)] for a Number *)
Definition Number_toString (a : number) : string :=
  match a with
  | NaN => "NaN"
  | PInf => "Infinity"
  | NInf => "-Infinity"
  | Fin x =>
      match Qcompare x 0 with
      | Eq => "0"
      | Gt => positive_toString x
      | Lt => "-" ++ positive_toString (- x)
      end
  end.

(** [a.toFixed(f)] *)
Definition toFixed (a : number) (f : nat) : string :=
  match a with
  | Fin x =>
      if Qle_bool (10 ^ 21)%Q (Qabs x) then Number_toString a
      else
        let n := Qfloor (Qabs x * 10 ^ Z.of_nat f + (1 # 2))%Q in
        let m := decimal n in
        let m := if (String.length m <=? f)%nat
                 then repeat_char "0" (f + 1 - String.length m) ++ m else m in
        let m := match f with
                 | O => m
                 | S _ => take (String.length m - f) m ++ "." ++ drop (String.length m - f) m
                 end in
        match Qcompare x 0 with
        | Lt => "-" ++ m
        | _ => m
        end
  | _ => Number_toString a
  end.

(** *** Strings to numbers *)

Definition is_space (c : ascii) : bool :=
  let n := nat_of_ascii c in
  ((n =? 32) || ((9 <=? n) && (n <=? 13)))%nat.

Fixpoint trim_start (s : string) : string :=
  match s with
  | String c r => if is_space c then trim_start r else s
  | EmptyString => s
  end.

Fixpoint trim_end (s : string) : string :=
  match s with
  | String c r =>
      match trim_end r with
      | EmptyString => if is_space c then EmptyString else String c EmptyString
      | r' => String c r'
      end
  | EmptyString => s
  end.

Definition digit_value (radix : Z) (c : ascii) : option Z :=
  let n := Z.of_nat (nat_of_ascii c) in
  let d := if ((48 <=? n) && (n <=? 57))%Z then Some (n - 48)%Z
           else if ((97 <=? n) && (n <=? 122))%Z then Some (n - 87)%Z
           else if ((65 <=? n) && (n <=? 90))%Z then Some (n - 55)%Z
           else None in
  match d with
  | Some v => if (v <? radix)%Z then Some v else None
  | None => None
  end.

(** The longest prefix of digits: its value, its length, and the rest. *)
Fixpoint parse_digits (radix : Z) (s : string) (acc : Z) (count : nat) : Z * nat * string :=
  match s with
  | String c r =>
      match digit_value radix c with
      | Some v => parse_digits radix r (acc * radix + v)%Z (S count)
      | None => (acc, count, s)
      end
  | EmptyString => (acc, count, s)
  end.

Definition strip_sign (s : string) : bool * string :=
  match s with
  | String "-" r => (true, r)
  | String "+" r => (false, r)
  | _ => (false, s)
  end.

Definition signed (neg : bool) (v : Q) : Q := if neg then (- v)%Q else v.

(** [parseInt(s)] for a string, the radix left out *)
Definition parseInt_string (s : string) : number :=
  let (neg, s1) := strip_sign (trim_start s) in
  let (radix, s2) :=
    if startsWith s1 "0x" || startsWith s1 "0X" then (16%Z, drop 2 s1) else (10%Z, s1) in
  let '(v, count, _) := parse_digits radix s2 0 0 in
  match count with
  | O => NaN
  | S _ => b64 (signed neg (inject_Z v))
  end.

Definition all_digits (radix : Z) (s : string) : number :=
  let '(v, count, rest) := parse_digits radix s 0 0 in
  match count, rest with
  | S _, EmptyString => b64 (inject_Z v)
  | _, _ => NaN
  end.

Definition parse_exponent (s : string) : option Z :=
  match s with
  | EmptyString => Some 0%Z
  | String c r =>
      if Ascii.eqb c "e" || Ascii.eqb c "E" then
        let (neg, r1) := strip_sign r in
        let '(v, count, rest) := parse_digits 10 r1 0 0 in
        match count, rest with
        | S _, EmptyString => Some (if neg then (- v)%Z else v)
        | _, _ => None
        end
      else None
  end.

Definition parse_decimal (s : string) : number :=
  let (neg, s1) := strip_sign s in
  if String.eqb s1 "Infinity" then (if neg then NInf else PInf)
  else
    let '(i, ci, r1) := parse_digits 10 s1 0 0 in
    let '(f, cf, r2) :=
      match r1 with
      | String "." r => parse_digits 10 r 0 0
      | _ => (0%Z, O, r1)
      end in
    match (ci + cf)%nat, parse_exponent r2 with
    | S _, Some e =>
        b64 (signed neg (inject_Z (i * 10 ^ Z.of_nat cf + f) * 10 ^ (e - Z.of_nat cf))%Q)
    | _, _ => NaN
    end.

(** [Number(s)] for a string (StringToNumber) *)
Definition StringToNumber (s : string) : number :=
  let t := trim_end (trim_start s) in
  if String.eqb t "" then Fin 0
  else if startsWith t "0x" || startsWith t "0X" then all_digits 16 (drop 2 t)
  else if startsWith t "0o" || startsWith t "0O" then all_digits 8 (drop 2 t)
  else if startsWith t "0b" || startsWith t "0B" then all_digits 2 (drop 2 t)
  else parse_decimal t.

Definition ToNumber (v : value) : number :=
  match v with
  | VUndefined => NaN
  | VNull => Fin 0
  | VBool b => Fin (if b then 1 else 0)
  | VNum n => n
  | VStr s => StringToNumber s
  end.

Definition ToString (v : value) : string :=
  match v with
  | VUndefined => "undefined"
  | VNull => "null"
  | VBool b => if b then "true" else "false"
  | VNum n => Number_toString n
  | VStr s => s
  end.

(** [parseInt(v)] *)
Definition parseInt (v : value) : number := parseInt_string (ToString v).

End JS.

(** ** The tables and what the Supabase client returns *)

Import JS.

(** A row of [rate_limit_configs], as the client receives it. *)
Module Conf.
Record t : Type := {
  id : string;
  provider : maybe string;
  tier_name : maybe string;
  model_pattern : maybe string;
  token_limit : maybe Q;
  request_limit : maybe Q;
  reset_strategy : maybe string;
  window_minutes : maybe Q
}.
End Conf.

(** Modelled from the spec: the declaration of the table
    [rate_limit_status], which is not among the sources.  A row holds, per
    configuration, the columns the frontend reads and writes, and the
    optional [reset_anchor_timestamp] set by manual intervention, which the
    frontend never names. *)
Module Status.
Record t : Type := {
  config_id : string;
  remaining_tokens : maybe Q;
  remaining_requests : maybe Q;
  window_start : maybe string;
  next_reset : maybe string;
  last_updated : maybe string;
  reset_anchor_timestamp : maybe string
}.
End Status.

(** The result [{ data, error }] of a query, and the outcome of awaiting it. *)
Record Response (A : Type) : Type := {
  data : option A;
  error : option string
}.
Arguments data {A} r.
Arguments error {A} r.

Inductive settled (A : Type) : Type :=
  | Fulfilled (r : A)
  | Rejected.
Arguments Fulfilled {A} r.
Arguments Rejected {A}.

(** What is thrown inside a [try] block. *)
Inductive exn : Type :=
  | TypeError
  | Rejection.

Inductive completion (A : Type) : Type :=
  | Normal (a : A)
  | Throw (e : exn).
Arguments Normal {A} a.
Arguments Throw {A} e.

Definition bind {A B : Type} (c : completion A) (k : A -> completion B) : completion B :=
  match c with
  | Normal a => k a
  | Throw e => Throw e
  end.

Notation "x <- c ;; k" := (bind c (fun x => k))
  (at level 100, c at next level, right associativity).

(** [await Promise.all([p, q])] *)
Definition await_all {A B : Type} (p : settled A) (q : settled B) : completion (A * B) :=
  match p, q with
  | Fulfilled a, Fulfilled b => Normal (a, b)
  | _, _ => Throw Rejection
  end.

(** [try { body } catch (e) { return null }] *)
Definition try_or_null {A : Type} (body : completion (option A)) : option A :=
  match body with
  | Normal r => r
  | Throw _ => None
  end.

(** Property names every object literal inherits from [Object.prototype]. *)
Definition Object_prototype_names : list string :=
  ("constructor" :: "__defineGetter__" :: "__defineSetter__" :: "hasOwnProperty"
   :: "__lookupGetter__" :: "__lookupSetter__" :: "isPrototypeOf"
   :: "propertyIsEnumerable" :: "toString" :: "valueOf" :: "__proto__"
   :: "toLocaleString" :: nil)%string.

Definition inherited (key : string) : bool :=
  existsb (String.eqb key) Object_prototype_names.

(** ** loadRateLimitsConfig *)

(** The structure handed to the interface. *)
Module BackendStatus.
Record t : Type := {
  percentage : number;
  nextReset : maybe string;
  label : string
}.
End BackendStatus.

Module Limit.
Record t : Type := {
  id : string;
  name : string;
  limit : Q;
  unit : string;
  resetType : maybe string;
  windowHours : number;
  resetTime : string;
  backendStatus : BackendStatus.t
}.
End Limit.

(** An icon is one of the strings of the table, or, for a provider named like
    a property of [Object.prototype], the inherited value found there. *)
Inductive icon_value : Type :=
  | Emoji (s : string)
  | Inherited (name : string).

Module Provider.
Record t : Type := {
  name : string;
  icon : icon_value;
  enabled : bool;
  limits : list Limit.t
}.
End Provider.

Record UiConfig : Type := {
  providers : gmap string Provider.t
}.

Local Open Scope string_scope.

(** [new Map(rows.map(s => [s.config_id, s]))]: a later row replaces an
    earlier one with the same key. *)
Definition statusMap_of (rows : list Status.t) : gmap string Status.t :=
  fold_left (fun m s => <[Status.config_id s := s]> m) rows ∅.

(** [providerIcons[name] || '🔌'] *)
Definition providerIcons (name : string) : icon_value :=
  if String.eqb name "OpenAI" then Emoji "🤖"
  else if String.eqb name "Anthropic" then Emoji "🟣"
  else if String.eqb name "Google" then Emoji "💎"
  else if inherited name then Inherited name
  else Emoji "🔌".

(** [status?.field] *)
Definition opt_field {A : Type} (f : Status.t -> maybe A) (status : option Status.t) : maybe A :=
  match status with
  | Some s => f s
  | None => undefined
  end.

(** [Math.max(0, Math.min(remaining, limit))] *)
Definition safeRemaining (remaining limit : Q) : number :=
  Math_max (Fin 0) (Math_min (Fin remaining) (Fin limit)).

(** [Math.round((safeRemaining / limit) * 100)] *)
Definition percentage_of (remaining limit : Q) : number :=
  Math_round (mul (div (safeRemaining remaining limit) (Fin limit)) (Fin 100)).

(** [Math.max(0, limit - remaining)] *)
Definition used_of (remaining limit : Q) : number :=
  Math_max (Fin 0) (sub (Fin limit) (Fin remaining)).

(** The four variables the branches on the limit type assign. *)
Record Quota : Type := {
  limitVal : Q;
  limitUnit : string;
  percentage : number;
  usedLabel : string
}.

Definition quota_of (status : option Status.t) (conf : Conf.t) : Quota :=
  match truthy_num (Conf.token_limit conf), truthy_num (Conf.request_limit conf) with
  | Some token_limit, _ =>
      let remaining := nullish (opt_field Status.remaining_tokens status) token_limit in
      let used := used_of remaining token_limit in
      {| limitVal := token_limit;
         limitUnit := "tokens";
         percentage := percentage_of remaining token_limit;
         usedLabel := toFixed (div used (Fin 1000)) 1 ++ "k / "
                      ++ toFixed (div (Fin token_limit) (Fin 1000)) 0 ++ "k" |}
  | None, Some request_limit =>
      let remaining := nullish (opt_field Status.remaining_requests status) request_limit in
      let used := used_of remaining request_limit in
      {| limitVal := request_limit;
         limitUnit := "requests";
         percentage := percentage_of remaining request_limit;
         usedLabel := Number_toString used ++ " / " ++ Number_toString (Fin request_limit) |}
  | None, None =>
      {| limitVal := 0%Q;
         limitUnit := "requests";
         percentage := Fin 100;
         usedLabel := "Unlimited" |}
  end.

(** [Math.round(conf.window_minutes / 60)] *)
Definition windowHours_of (window_minutes : maybe Q) : number :=
  Math_round
    (div (match window_minutes with
          | val m => Fin m
          | null => Fin 0
          | undefined => NaN
          end) (Fin 60)).

(** The object pushed onto the provider's [limits]. *)
Definition limit_of (statusMap : gmap string Status.t) (conf : Conf.t) : Limit.t :=
  let status := statusMap !! Conf.id conf in
  let q := quota_of status conf in
  {| Limit.id := Conf.id conf;
     Limit.name := match truthy_str (Conf.model_pattern conf) with
                   | Some pattern => pattern
                   | None => "All Models"
                   end;
     Limit.limit := limitVal q;
     Limit.unit := limitUnit q;
     Limit.resetType := Conf.reset_strategy conf;
     Limit.windowHours := windowHours_of (Conf.window_minutes conf);
     Limit.resetTime := "00:00";
     Limit.backendStatus :=
       {| BackendStatus.percentage := percentage q;
          BackendStatus.nextReset := opt_field Status.next_reset status;
          BackendStatus.label := usedLabel q |} |}.

Definition new_provider (conf : Conf.t) (name : string) : Provider.t :=
  {| Provider.name := name ++ match truthy_str (Conf.tier_name conf) with
                              | Some tier => " " ++ tier
                              | None => ""
                              end;
     Provider.icon := providerIcons name;
     Provider.enabled := true;
     Provider.limits := nil |}.

Definition push (l : Limit.t) (p : Provider.t) : Provider.t :=
  {| Provider.name := Provider.name p;
     Provider.icon := Provider.icon p;
     Provider.enabled := Provider.enabled p;
     Provider.limits := Provider.limits p ++ l :: nil |}.

(** The body of [configs.forEach]: [conf.provider.toLowerCase()] throws on
    a provider that is not a string, and [providers[providerKey].limits.push]
    throws when the key is found on [Object.prototype] instead. *)
Definition forEach_body (statusMap : gmap string Status.t)
    (providers : gmap string Provider.t) (conf : Conf.t)
    : completion (gmap string Provider.t) :=
  match Conf.provider conf with
  | val name =>
      let providerKey := toLowerCase name in
      match providers !! providerKey with
      | Some p => Normal (<[providerKey := push (limit_of statusMap conf) p]> providers)
      | None =>
          if inherited providerKey then Throw TypeError
          else Normal (<[providerKey := push (limit_of statusMap conf) (new_provider conf name)]>
                         providers)
      end
  | _ => Throw TypeError
  end.

Fixpoint forEach (statusMap : gmap string Status.t)
    (providers : gmap string Provider.t) (configs : list Conf.t)
    : completion (gmap string Provider.t) :=
  match configs with
  | nil => Normal providers
  | conf :: rest =>
      providers' <- forEach_body statusMap providers conf ;;
      forEach statusMap providers' rest
  end.

(** The body of the [try] block, from the two awaited results on. *)
Definition load_body (configsResult : Response (list Conf.t))
    (statusResult : Response (list Status.t)) : completion (option UiConfig) :=
  match error configsResult with
  | Some _ => Normal None
  | None =>
      let statusMap := statusMap_of (match data statusResult with
                                     | Some rows => rows
                                     | None => nil
                                     end) in
      match data configsResult with
      | None => Throw TypeError
      | Some configs =>
          providers <- forEach statusMap ∅ configs ;;
          Normal (Some {| providers := providers |})
      end
  end.

(** The [try] block: the two queries are awaited together first. *)
Definition load_try (configsQuery : settled (Response (list Conf.t)))
    (statusQuery : settled (Response (list Status.t))) : completion (option UiConfig) :=
  r <- await_all configsQuery statusQuery ;;
  load_body (fst r) (snd r).

(** The function returns [null] ([None]) or the structure built. *)
Definition loadRateLimitsConfig (configsQuery : settled (Response (list Conf.t)))
    (statusQuery : settled (Response (list Status.t))) : option UiConfig :=
  try_or_null (load_try configsQuery statusQuery).

(** ** saveConfig *)

(** A limit as the interface holds it; any property may hold any value. *)
Module UiLimit.
Record t : Type := {
  id : value;
  name : value;
  limit : value;
  unit : value;
  resetType : value;
  windowHours : value
}.
End UiLimit.

(** [limits] is [None] when the property is not an array. *)
Module UiProvider.
Record t : Type := {
  limits : option (list UiLimit.t)
}.
End UiProvider.

(** [providers] lists the entries in the order of [Object.entries]; it is
    [None] when the property is missing. *)
Module NewConfig.
Record t : Type := {
  providers : option (list (string * UiProvider.t))
}.
End NewConfig.

(** A row sent to [rate_limit_configs]; [id] is [None] when the property is
    left out for the database to generate. *)
Module Row.
Record t : Type := {
  provider : string;
  tier_name : string;
  model_pattern : value;
  reset_strategy : value;
  window_minutes : number;
  token_limit : maybe number;
  request_limit : maybe number;
  id : option value
}.
End Row.

Inductive request : Type :=
  | Delete (ids : list string)
  | Upsert (rows : list Row.t).

(** [typeof limit.id === 'string' && limit.id.startsWith('limit_')] *)
Definition isNew (limit : UiLimit.t) : bool :=
  match UiLimit.id limit with
  | VStr s => startsWith s "limit_"
  | _ => false
  end.

(** The provider name: the key capitalised, then the known keys mapped. *)
Definition provider_of_key (providerKey : string) : string :=
  let rough := toUpperCase (charAt0 providerKey) ++ slice1 providerKey in
  let p := if String.eqb providerKey "chatgpt" then "OpenAI" else rough in
  let p := if String.eqb providerKey "openai" then "OpenAI" else p in
  let p := if String.eqb providerKey "claude" then "Anthropic" else p in
  let p := if String.eqb providerKey "anthropic" then "Anthropic" else p in
  let p := if String.eqb providerKey "gemini" then "Google" else p in
  if String.eqb providerKey "google" then "Google" else p.

(** [(limit.windowHours || 1) * 60] *)
Definition window_minutes_of (windowHours : value) : number :=
  mul (ToNumber (if truthy windowHours then windowHours else VNum (Fin 1))) (Fin 60).

(** [limit.unit === 'tokens'] *)
Definition is_tokens (limit : UiLimit.t) : bool :=
  match UiLimit.unit limit with
  | VStr u => String.eqb u "tokens"
  | _ => false
  end.

Definition row_of (providerKey : string) (limit : UiLimit.t) : Row.t :=
  let tokens := is_tokens limit in
  {| Row.provider := provider_of_key providerKey;
     Row.tier_name := "";
     Row.model_pattern := UiLimit.name limit;
     Row.reset_strategy := UiLimit.resetType limit;
     Row.window_minutes := window_minutes_of (UiLimit.windowHours limit);
     Row.token_limit := if tokens then val (parseInt (UiLimit.limit limit)) else null;
     Row.request_limit := if tokens then null else val (parseInt (UiLimit.limit limit));
     Row.id := if isNew limit then None else Some (UiLimit.id limit) |}.

(** The two accumulators of the loops: [upsertData] and [keptIds]. *)
Definition save_acc : Type := list Row.t * list value.

Definition limit_step (providerKey : string) (acc : save_acc) (limit : UiLimit.t) : save_acc :=
  ((fst acc ++ row_of providerKey limit :: nil)%list,
   if isNew limit then snd acc else (snd acc ++ UiLimit.id limit :: nil)%list).

(** [provider.limits.forEach] throws when [limits] is not an array. *)
Definition provider_step (acc : save_acc) (entry : string * UiProvider.t) : completion save_acc :=
  match UiProvider.limits (snd entry) with
  | Some limits => Normal (fold_left (limit_step (fst entry)) limits acc)
  | None => Throw TypeError
  end.

Fixpoint providers_forEach (acc : save_acc) (entries : list (string * UiProvider.t))
    : completion save_acc :=
  match entries with
  | nil => Normal acc
  | entry :: rest =>
      acc' <- provider_step acc entry ;;
      providers_forEach acc' rest
  end.

(** [keptIds.has(id)] for an id read from the table *)
Definition has_id (keptIds : list value) (id : string) : bool :=
  existsb (fun v => match v with
                    | VStr s => String.eqb s id
                    | _ => false
                    end) keptIds.

(** The elements of [new Set(ids)], in insertion order. *)
Fixpoint set_of (seen ids : list string) : list string :=
  match ids with
  | nil => nil
  | id :: rest =>
      if existsb (String.eqb id) seen then set_of seen rest
      else id :: set_of (id :: seen) rest
  end.

(** The requests [saveConfig] sends after reading the current ids: the
    delete, then the upsert, each only for a non-empty list (the client
    answers a request with [{ data, error }], and the code reads neither).
    Nothing is sent when the configuration or its [providers] is missing, nor
    once something has been thrown. *)
Definition saveConfig (newConfig : option NewConfig.t)
    (currentRows : settled (Response (list string))) : list request :=
  match newConfig with
  | None => nil
  | Some config =>
      match NewConfig.providers config with
      | None => nil
      | Some entries =>
          match currentRows with
          | Rejected => nil
          | Fulfilled result =>
              let existingIds := set_of nil (match data result with
                                             | Some ids => ids
                                             | None => nil
                                             end) in
              match providers_forEach (nil, nil) entries with
              | Throw _ => nil
              | Normal (upsertData, keptIds) =>
                  let idsToDelete := List.filter (fun id => negb (has_id keptIds id)) existingIds in
                  ((match idsToDelete with
                    | nil => nil
                    | _ => Delete idsToDelete :: nil
                    end)
                   ++ (match upsertData with
                       | nil => nil
                       | _ => Upsert upsertData :: nil
                       end))%list
              end
          end
      end
  end.

(** The rows of the upsert requests. *)
Definition upserted_rows (requests : list request) : list Row.t :=
  flat_map (fun r => match r with
                     | Upsert rows => rows
                     | Delete _ => nil
                     end) requests.

(** ** resetProviderLimits *)

(** The object passed to [upsert] on [rate_limit_status]. *)
Module StatusUpsert.
Record t : Type := {
  config_id : string;
  remaining_tokens : maybe Q;
  remaining_requests : maybe Q;
  window_start : string;
  next_reset : maybe string;
  last_updated : string
}.
End StatusUpsert.

Definition reset_payload (now : string) (conf : Conf.t) : StatusUpsert.t :=
  {| StatusUpsert.config_id := Conf.id conf;
     StatusUpsert.remaining_tokens := Conf.token_limit conf;
     StatusUpsert.remaining_requests := Conf.request_limit conf;
     StatusUpsert.window_start := now;
     StatusUpsert.next_reset := null;
     StatusUpsert.last_updated := now |}.

(** The upserts sent, in order, for the rows [configs] the select returned
    ([None] for [null]); the answer to an upsert is not read. *)
Definition reset_upserts (now : string) (configs : option (list Conf.t)) : list StatusUpsert.t :=
  match configs with
  | None => nil
  | Some nil => nil
  | Some configs => List.map (reset_payload now) configs
  end.

(** *** The store behind the client *)

Record Database : Type := {
  rate_limit_configs : list Conf.t;
  rate_limit_status : gmap string Status.t
}.

(** [s ILIKE p]: [%] stands for any sequence, [_] for any one character and
    a backslash takes the next character literally; letters match without
    regard to case. *)
Fixpoint ilike (p s : string) {struct p} : bool :=
  match p with
  | EmptyString =>
      match s with
      | EmptyString => true
      | _ => false
      end
  | String "%" p' =>
      (fix any (s : string) : bool :=
         ilike p' s || match s with
                       | String _ s' => any s'
                       | EmptyString => false
                       end) s
  | String "_" p' =>
      match s with
      | String _ s' => ilike p' s'
      | EmptyString => false
      end
  | String "\" (String c p') =>
      match s with
      | String d s' => Ascii.eqb (lower_char c) (lower_char d) && ilike p' s'
      | EmptyString => false
      end
  | String c p' =>
      match s with
      | String d s' => Ascii.eqb (lower_char c) (lower_char d) && ilike p' s'
      | EmptyString => false
      end
  end.

(** [.from('rate_limit_configs').select(...).ilike('provider', providerName)] *)
Definition select_ilike_provider (db : Database) (providerName : string) : list Conf.t :=
  List.filter (fun conf => match Conf.provider conf with
                           | val p => ilike providerName p
                           | _ => false
                           end) (rate_limit_configs db).

(** A column named by the upsert takes the value sent; a property that is
    [undefined] is not sent. *)
Definition column {A : Type} (sent : maybe A) (old : maybe A) : maybe A :=
  match sent with
  | undefined => old
  | _ => sent
  end.

(** [upsert(payload, { onConflict: 'config_id' })]: the row with that
    [config_id] is updated in the columns sent, or inserted with the others
    null. *)
Definition upsert_row (p : StatusUpsert.t) (old : option Status.t) : Status.t :=
  {| Status.config_id := StatusUpsert.config_id p;
     Status.remaining_tokens :=
       column (StatusUpsert.remaining_tokens p) (opt_field Status.remaining_tokens old);
     Status.remaining_requests :=
       column (StatusUpsert.remaining_requests p) (opt_field Status.remaining_requests old);
     Status.window_start := val (StatusUpsert.window_start p);
     Status.next_reset := column (StatusUpsert.next_reset p) (opt_field Status.next_reset old);
     Status.last_updated := val (StatusUpsert.last_updated p);
     Status.reset_anchor_timestamp :=
       match old with
       | Some row => Status.reset_anchor_timestamp row
       | None => null
       end |}.

Definition upsert_status (table : gmap string Status.t) (p : StatusUpsert.t)
    : gmap string Status.t :=
  <[StatusUpsert.config_id p := upsert_row p (table !! StatusUpsert.config_id p)]> table.

(** [resetProviderLimits(providerName)] run at time [now] against the store. *)
Definition resetProviderLimits (now : string) (providerName : string) (db : Database)
    : Database :=
  {| rate_limit_configs := rate_limit_configs db;
     rate_limit_status :=
       fold_left upsert_status
         (reset_upserts now (Some (select_ilike_provider db providerName)))
         (rate_limit_status db) |}.

(** ** Vocabulary of the statements *)

(** The rows a settled query delivered, none when it failed. *)
Definition rows_of {A : Type} (query : settled (Response (list A))) : list A :=
  match query with
  | Fulfilled result =>
      match data result with
      | Some rows => rows
      | None => nil
      end
  | Rejected => nil
  end.

(** The limit entry [e] is listed under the provider of [conf]. *)
Definition reports (ui : UiConfig) (conf : Conf.t) (e : Limit.t) : Prop :=
  exists name p,
    Conf.provider conf = val name /\
    providers ui !! toLowerCase name = Some p /\
    In e (Provider.limits p).

(** A limit that is not set: absent, null or zero. *)
Definition unset (a : maybe Q) : Prop :=
  a = undefined \/ a = null \/ exists x, a = val x /\ (x == 0)%Q.

(** The limit the interface shows for a configuration, the token limit
    first, and the remaining amount read for it from the status row. *)
Definition limit_in_effect (conf : Conf.t) : option Q :=
  match truthy_num (Conf.token_limit conf) with
  | Some l => Some l
  | None => truthy_num (Conf.request_limit conf)
  end.

Definition remaining_read (status : option Status.t) (conf : Conf.t) : maybe Q :=
  match truthy_num (Conf.token_limit conf) with
  | Some _ => opt_field Status.remaining_tokens status
  | None => opt_field Status.remaining_requests status
  end.


(** The value column [f] of the row [k] ends with, after the limits of the
    configurations [configs] with that id were sent in order. *)
Definition latest {A : Type} (f : Conf.t -> maybe A) (k : string) (configs : list Conf.t)
    (old : maybe A) : maybe A :=
  fold_left (fun o conf => if String.eqb (Conf.id conf) k then column (f conf) o else o)
    configs old.

Definition anchor_of (row : option Status.t) : maybe string :=
  match row with
  | Some r => Status.reset_anchor_timestamp r
  | None => null
  end.

Definition has_config (k : string) (configs : list Conf.t) : bool :=
  existsb (fun conf => String.eqb (Conf.id conf) k) configs.


(** A configuration the loop of [loadRateLimitsConfig] accepts: its provider
    is a string, and not one whose key is found on [Object.prototype]. *)
Definition well_formed (conf : Conf.t) : Prop :=
  exists name, Conf.provider conf = val name /\ inherited (toLowerCase name) = false.

(** ** Sample data *)

Definition sample_conf (id provider : string) (token_limit request_limit : maybe Q) : Conf.t :=
  {| Conf.id := id;
     Conf.provider := val provider;
     Conf.tier_name := null;
     Conf.model_pattern := null;
     Conf.token_limit := token_limit;
     Conf.request_limit := request_limit;
     Conf.reset_strategy := val "daily";
     Conf.window_minutes := val 1440%Q |}.

Definition sample_status (config_id : string) (tokens requests : maybe Q) : Status.t :=
  {| Status.config_id := config_id;
     Status.remaining_tokens := tokens;
     Status.remaining_requests := requests;
     Status.window_start := val "2026-01-05T00:00:00+00:00";
     Status.next_reset := val "2026-01-06T00:00:00+00:00";
     Status.last_updated := val "2026-01-05T10:00:00+00:00";
     Status.reset_anchor_timestamp := null |}.

Definition ok {A : Type} (rows : list A) : settled (Response (list A)) :=
  Fulfilled {| data := Some rows; error := None |}.

Definition sample_configs : list Conf.t :=
  sample_conf "c1" "OpenAI" (val 100000%Q) null
  :: sample_conf "c2" "Anthropic" null (val 1000%Q)
  :: sample_conf "c3" "Google" null null
  :: sample_conf "c4" "OpenAI" (val (-5)%Q) null :: nil.

Definition sample_statuses : list Status.t :=
  sample_status "c1" (val 250000%Q) null
  :: sample_status "c2" null (val 400%Q) :: nil.

Definition sample_limit (id : value) (limit : value) (unit : string) (hours : Z) : UiLimit.t :=
  {| UiLimit.id := id;
     UiLimit.name := VStr "gpt-4";
     UiLimit.limit := limit;
     UiLimit.unit := VStr unit;
     UiLimit.resetType := VStr "rolling";
     UiLimit.windowHours := VNum (Fin (inject_Z hours)) |}.

Definition sample_newConfig : NewConfig.t :=
  {| NewConfig.providers :=
       Some (("openai",
              {| UiProvider.limits :=
                   Some (sample_limit (VStr "c1") (VStr "250000") "tokens" 5
                         :: sample_limit (VStr "limit_1700000000000") (VNum (Fin 1000)) "requests" 24
                         :: nil) |})
             :: ("claude",
                 {| UiProvider.limits :=
                      Some (sample_limit (VStr "c2") (VStr "abc") "requests" 168 :: nil) |})
             :: nil) |}.

Definition sample_currentRows : settled (Response (list string)) :=
  Fulfilled {| data := Some ("c1" :: "c2" :: "c3" :: nil); error := None |}.


Definition sample_now : string := "2026-01-05T12:00:00.000Z".

Definition sample_db : Database :=
  {| rate_limit_configs := sample_configs;
     rate_limit_status :=
       <["c1" := sample_status "c1" (val 250%Q) null]> ∅ |}.

(** A number of hours that is an integer below [2^53] while sixty times it
    is not a binary64 value. *)
Definition long_hours : Z := 5629499534213128.

Definition long_limit : UiLimit.t :=
  sample_limit (VStr "c1") (VStr "250000") "tokens" long_hours.

Definition conf_with_window (window_minutes : Q) : Conf.t :=
  {| Conf.id := "c1";
     Conf.provider := val "OpenAI";
     Conf.tier_name := null;
     Conf.model_pattern := null;
     Conf.token_limit := val 250000%Q;
     Conf.request_limit := null;
     Conf.reset_strategy := val "rolling";
     Conf.window_minutes := val window_minutes |}.

(** ** The helpers of the module *)

(** [s.includes(sub)] *)
Fixpoint includes (s sub : string) : bool :=
  startsWith s sub
  || match s with
     | String _ r => includes r sub
     | EmptyString => false
     end.

(** [a >= b] on Numbers; a comparison with NaN is false. *)
Definition num_ge (a b : number) : bool :=
  match a, b with
  | NaN, _ | _, NaN => false
  | PInf, _ => true
  | _, NInf => true
  | NInf, _ => false
  | _, PInf => false
  | Fin x, Fin y => Qle_bool y x
  end.

(** [getQuotaStatusColor(percentage)] *)
Definition getQuotaStatusColor (percentage : maybe number) : string :=
  match percentage with
  | undefined | null => "#6b7280"
  | val p =>
      if num_ge p (Fin 50) then "#10b981"
      else if num_ge p (Fin 20) then "#f59e0b"
      else "#ef4444"
  end.

(** [detectProvider(modelName)] *)
Definition detectProvider (modelName : string) : string :=
  if includes modelName "gpt" || includes modelName "o1" then "openai"
  else if includes modelName "claude" then "anthropic"
  else if includes modelName "gemini" then "google"
  else "unknown".

(** ** The Supabase client's settings (lib/supabase) *)

(** [getEnvValue(placeholder, buildTimeValue)]: the placeholder is a string
    of the built file, the build-time value a variable that may be missing. *)
Definition getEnvValue (placeholder : string) (buildTimeValue : maybe string) : maybe string :=
  if negb (String.eqb placeholder "") && negb (includes placeholder "PLACEHOLDER")
  then val placeholder
  else buildTimeValue.

(** [value || ''], the argument passed to [createClient] *)
Definition or_empty (v : maybe string) : string :=
  match truthy_str v with
  | Some s => s
  | None => ""
  end.

(** ** More vocabulary of the statements *)

(** The key under which a configuration is listed: its provider in lower
    case, when it has one. *)
Definition key_of (conf : Conf.t) : option string :=
  match Conf.provider conf with
  | val name => Some (toLowerCase name)
  | _ => None
  end.

(** The configurations listed under the key [k], in their order. *)
Definition grouped (k : string) (configs : list Conf.t) : list Conf.t :=
  List.filter (fun conf => match key_of conf with
                           | Some k' => String.eqb k' k
                           | None => false
                           end) configs.

(** The provider a configuration creates when its key is met first. *)
Definition opened_by (conf : Conf.t) : Provider.t :=
  match Conf.provider conf with
  | val name => new_provider conf name
  | _ => new_provider conf ""
  end.

(** All the limits of the new configuration with their provider keys, in the
    order the two loops visit them; [None] when some [limits] is not an
    array. *)
Fixpoint all_limits (entries : list (string * UiProvider.t)) : option (list (string * UiLimit.t)) :=
  match entries with
  | nil => Some nil
  | (key, provider) :: rest =>
      match UiProvider.limits provider, all_limits rest with
      | Some limits, Some others => Some (List.map (pair key) limits ++ others)%list
      | _, _ => None
      end
  end.

(** The ids of a [Delete] request, none when there is no such request. *)
Definition deleted_ids (requests : list request) : list string :=
  flat_map (fun r => match r with
                     | Delete ids => ids
                     | Upsert _ => nil
                     end) requests.

(** A [LIKE] pattern without [%], [_] or backslash. *)
Fixpoint plain (p : string) : bool :=
  match p with
  | EmptyString => true
  | String c r =>
      negb (Ascii.eqb c "%") && negb (Ascii.eqb c "_") && negb (Ascii.eqb c "\") && plain r
  end.

(** The rows of [rate_limit_status] as a query without filter returns them,
    and a table whose rows are stored under their own [config_id]. *)
Definition select_status (db : Database) : list Status.t :=
  List.map snd (map_to_list (rate_limit_status db)).

Definition keyed (table : gmap string Status.t) : Prop :=
  forall k row, table !! k = Some row -> Status.config_id row = k.

(** A provider with further limits pushed onto its list. *)
Definition add_limits (p : Provider.t) (ls : list Limit.t) : Provider.t :=
  {| Provider.name := Provider.name p;
     Provider.icon := Provider.icon p;
     Provider.enabled := Provider.enabled p;
     Provider.limits := Provider.limits p ++ ls |}.

(** The provider listed under [k] for the configurations [configs]. *)
Definition provider_for (statusMap : gmap string Status.t) (k : string)
    (configs : list Conf.t) : option Provider.t :=
  match grouped k configs with
  | nil => None
  | first :: others =>
      Some (add_limits (opened_by first) (List.map (limit_of statusMap) (first :: others)))
  end.

(** The row built for a limit listed under a provider key, and the ids the
    loops put into [keptIds]: those of the limits that are not new. *)
Definition row_of_pair (kl : string * UiLimit.t) : Row.t := row_of (fst kl) (snd kl).

Definition kept_ids (ls : list (string * UiLimit.t)) : list value :=
  flat_map (fun kl => if isNew (snd kl) then nil else UiLimit.id (snd kl) :: nil) ls.

(** The ids read from the table, an empty list when the read gave none. *)
Definition ids_read (result : Response (list string)) : list string :=
  match data result with
  | Some ids => ids
  | None => nil
  end.

(** ** More sample data *)

Definition sample_result : Response (list string) :=
  {| data := Some ("c1" :: "c2" :: "c3" :: nil); error := None |}.

Definition sample_brokenConfig : NewConfig.t :=
  {| NewConfig.providers :=
       Some (("openai",
              {| UiProvider.limits :=
                   Some (sample_limit (VStr "c1") (VStr "5") "tokens" 5 :: nil) |})
             :: ("claude", {| UiProvider.limits := None |}) :: nil) |}.

Definition sample_emptyConfig : NewConfig.t :=
  {| NewConfig.providers := Some (("openai", {| UiProvider.limits := Some nil |}) :: nil) |}.

(** * Properties *)

(** ** Rounding *)

Module Binary64Facts.

Import Binary64.
Local Open Scope Q_scope.

Lemma rne_comp (x y : Q) : x == y -> rne x = rne y.
Proof.
  intros E. unfold rne. rewrite (Qfloor_comp _ _ E).
  assert (H : Qcompare (x - inject_Z (Qfloor y)) (1#2) = Qcompare (y - inject_Z (Qfloor y)) (1#2)).
  { apply Qcompare_comp; [rewrite E|]; reflexivity. }
  now rewrite H.
Qed.

Lemma rne_Z (z : Z) : rne (inject_Z z) = z.
Proof.
  unfold rne. rewrite Qfloor_Z.
  assert (H : Qcompare (inject_Z z - inject_Z z) (1#2) = Lt).
  { apply -> Qlt_alt. lra. }
  now rewrite H.
Qed.

Lemma rne_floor (x : Q) : (Qfloor x <= rne x <= Qfloor x + 1)%Z.
Proof.
  unfold rne. destruct (Qcompare _ _); [destruct (Z.even _)| |]; lia.
Qed.

Lemma rne_le (x y : Q) : x <= y -> (rne x <= rne y)%Z.
Proof.
  intros L. pose proof (Qfloor_resp_le _ _ L) as F.
  destruct (Z.eq_dec (Qfloor x) (Qfloor y)) as [E|N].
  - unfold rne. rewrite E.
    destruct (Qcompare (x - inject_Z (Qfloor y)) (1#2)) eqn:Cx;
    destruct (Qcompare (y - inject_Z (Qfloor y)) (1#2)) eqn:Cy;
    try (destruct (Z.even (Qfloor y))); try lia; exfalso;
    repeat match goal with
    | H : Qcompare _ _ = Eq |- _ => apply <- Qeq_alt in H
    | H : Qcompare _ _ = Lt |- _ => apply <- Qlt_alt in H
    | H : Qcompare _ _ = Gt |- _ => apply <- Qgt_alt in H
    end; lra.
  - pose proof (rne_floor x). pose proof (rne_floor y). lia.
Qed.

Lemma pow2_pos (k : Z) : 0 < 2 ^ k.
Proof. apply Qpower_0_lt. reflexivity. Qed.

Lemma pow2_succ (k : Z) : 2 ^ (k + 1) == 2 * 2 ^ k.
Proof. rewrite Qpower_plus by discriminate. simpl (2 ^ 1). ring. Qed.

Lemma pow2_add (j k : Z) : 2 ^ (j + k) == 2 ^ j * 2 ^ k.
Proof. apply Qpower_plus. discriminate. Qed.

Lemma pow2_le (j k : Z) : (j <= k)%Z -> 2 ^ j <= 2 ^ k.
Proof. intros. apply Qpower_le_compat_l; [assumption | discriminate]. Qed.

Lemma pow2_lt (j k : Z) : (j < k)%Z -> 2 ^ j < 2 ^ k.
Proof. intros. apply Qpower_lt_compat_l; [assumption | reflexivity]. Qed.

Lemma pow2_lt_inv (j k : Z) : 2 ^ j < 2 ^ k -> (j < k)%Z.
Proof. intros. eapply Qpower_lt_compat_l_inv; [eassumption | reflexivity]. Qed.

Lemma pow2_Z (k : Z) : (0 <= k)%Z -> 2 ^ k == inject_Z (2 ^ k).
Proof. intros. symmetry. apply (Zpower_Qpower 2 k). assumption. Qed.

Lemma ilog2_spec (x : Q) : 0 < x -> 2 ^ ilog2 x <= x /\ x < 2 ^ (ilog2 x + 1).
Proof.
  intros Hx. unfold ilog2.
  set (a := Z.log2 (Qnum x)). set (b := Z.log2 (Zpos (Qden x))).
  assert (Hn : (0 < Qnum x)%Z).
  { destruct x as [n d]. unfold Qlt in Hx. simpl in *. lia. }
  destruct (Z.log2_spec (Qnum x) Hn) as [Ha1 Ha2]. fold a in Ha1, Ha2.
  destruct (Z.log2_spec (Zpos (Qden x)) eq_refl) as [Hb1 Hb2]. fold b in Hb1, Hb2.
  assert (Ha0 : (0 <= a)%Z) by apply Z.log2_nonneg.
  assert (Hb0 : (0 <= b)%Z) by apply Z.log2_nonneg.
  assert (Hk : 2 ^ (a - b) * 2 ^ b == 2 ^ a).
  { rewrite <- pow2_add. now replace (a - b + b)%Z with a by lia. }
  pose proof (pow2_pos (a - b)) as Pk. pose proof (pow2_pos b) as Pb.
  pose proof (pow2_pos a) as Pa.
  assert (Hx' : x * inject_Z (Zpos (Qden x)) == inject_Z (Qnum x)).
  { destruct x as [n d]. simpl. unfold Qeq. simpl. lia. }
  rewrite <- Z.add_1_r in Ha2, Hb2.
  rewrite Zle_Qle in Ha1, Hb1. rewrite Zlt_Qlt in Ha2, Hb2.
  rewrite <- !pow2_Z in Ha1, Ha2, Hb1, Hb2 by lia.
  rewrite pow2_succ in Ha2, Hb2.
  set (d := inject_Z (Zpos (Qden x))) in *. set (n := inject_Z (Qnum x)) in *.
  assert (Hd : 0 < d) by reflexivity.
  assert (U : x < 2 * 2 ^ (a - b)).
  { apply Qnot_le_lt. intros C.
    assert (2 * 2 ^ (a - b) * d <= x * d) by (apply Qmult_le_compat_r; lra).
    assert (2 ^ (a - b) * 2 ^ b <= 2 ^ (a - b) * d) by (apply Qmult_le_l; lra).
    lra. }
  assert (L : 2 ^ (a - b) < 2 * x).
  { apply Qnot_le_lt. intros C.
    assert (2 * x * d <= 2 ^ (a - b) * d) by (apply Qmult_le_compat_r; lra).
    assert (2 ^ (a - b) * d < 2 ^ (a - b) * (2 * 2 ^ b)) by (apply Qmult_lt_l; lra).
    lra. }
  destruct (Qle_bool (2 ^ (a - b)) x) eqn:T.
  - apply Qle_bool_iff in T. rewrite pow2_succ. split; lra.
  - assert (~ 2 ^ (a - b) <= x) by (rewrite <- Qle_bool_iff; congruence).
    replace (a - b - 1 + 1)%Z with (a - b)%Z by lia.
    assert (E : 2 ^ (a - b) == 2 * 2 ^ (a - b - 1)).
    { rewrite <- pow2_succ. now replace (a - b - 1 + 1)%Z with (a - b)%Z by lia. }
    split; lra.
Qed.

Lemma ilog2_unique (x : Q) (k : Z) : 2 ^ k <= x -> x < 2 ^ (k + 1) -> ilog2 x = k.
Proof.
  intros L U.
  assert (Hx : 0 < x) by (pose proof (pow2_pos k); lra).
  destruct (ilog2_spec x Hx) as [L' U'].
  assert (k < ilog2 x + 1)%Z by (apply pow2_lt_inv; lra).
  assert (ilog2 x < k + 1)%Z by (apply pow2_lt_inv; lra).
  lia.
Qed.

Lemma ilog2_comp (x y : Q) : 0 < x -> x == y -> ilog2 x = ilog2 y.
Proof.
  intros Hx E. destruct (ilog2_spec x Hx). apply eq_sym, ilog2_unique; lra.
Qed.

Lemma ilog2_le (x y : Q) : 0 < x -> x <= y -> (ilog2 x <= ilog2 y)%Z.
Proof.
  intros Hx L. destruct (ilog2_spec x Hx). destruct (ilog2_spec y) as [? ?]; [lra|].
  assert (ilog2 x < ilog2 y + 1)%Z by (apply pow2_lt_inv; lra). lia.
Qed.

Lemma fexp_comp (x y : Q) : 0 < x -> x == y -> fexp x = fexp y.
Proof. intros. unfold fexp. now rewrite (ilog2_comp x y). Qed.

Lemma fexp_le (x y : Q) : 0 < x -> x <= y -> (fexp x <= fexp y)%Z.
Proof. intros Hx L. unfold fexp. pose proof (ilog2_le x y Hx L). lia. Qed.

Lemma pow2_cancel (e : Z) : 2 ^ (- e) * 2 ^ e == 1.
Proof. rewrite <- pow2_add. now replace (- e + e)%Z with 0%Z by lia. Qed.

Lemma scaled_le (x y : Q) (e : Z) : x <= y -> x * 2 ^ e <= y * 2 ^ e.
Proof. intros. apply Qmult_le_compat_r; [assumption|]. apply Qlt_le_weak, pow2_pos. Qed.

Lemma rne_pow2 (j e : Z) : (e <= j)%Z -> inject_Z (rne (2 ^ j * 2 ^ (- e))) * 2 ^ e == 2 ^ j.
Proof.
  intros H.
  assert (E : 2 ^ j * 2 ^ (- e) == inject_Z (2 ^ (j - e))).
  { rewrite <- pow2_add, <- pow2_Z by lia. now replace (j + - e)%Z with (j - e)%Z by lia. }
  rewrite (rne_comp _ _ E), rne_Z, <- pow2_Z, <- pow2_add by lia.
  now replace (j - e + e)%Z with j by lia.
Qed.

Lemma round_scaled_le (x y : Q) (e : Z) :
  x <= y -> inject_Z (rne (x * 2 ^ (- e))) * 2 ^ e <= inject_Z (rne (y * 2 ^ (- e))) * 2 ^ e.
Proof.
  intros L. apply scaled_le. rewrite <- Zle_Qle. apply rne_le. now apply scaled_le.
Qed.

Lemma round_pos_eq (x : Q) :
  round_pos x == inject_Z (rne (x * 2 ^ (- fexp x))) * 2 ^ fexp x.
Proof. apply Qred_correct. Qed.

Lemma round_pos_comp (x y : Q) : 0 < x -> x == y -> round_pos x == round_pos y.
Proof.
  intros Hx E. rewrite !round_pos_eq. rewrite <- (fexp_comp x y Hx E).
  assert (E' : x * 2 ^ (- fexp x) == y * 2 ^ (- fexp x)).
  { apply Qmult_comp; [exact E | reflexivity]. }
  now rewrite (rne_comp _ _ E').
Qed.

Lemma round_pos_nonneg (x : Q) : 0 < x -> 0 <= round_pos x.
Proof.
  intros Hx. rewrite round_pos_eq.
  assert (0 <= x * 2 ^ (- fexp x)).
  { apply Qmult_le_0_compat; [lra|]. apply Qlt_le_weak, pow2_pos. }
  apply Qmult_le_0_compat; [|apply Qlt_le_weak, pow2_pos].
  change 0 with (inject_Z 0). rewrite <- Zle_Qle.
  rewrite <- (rne_Z 0). now apply rne_le.
Qed.

Lemma round_pos_le (x y : Q) : 0 < x -> x <= y -> round_pos x <= round_pos y.
Proof.
  intros Hx L. pose proof (fexp_le x y Hx L) as F.
  destruct (Z.eq_dec (fexp x) (fexp y)) as [E|N].
  - rewrite !round_pos_eq. rewrite E. now apply round_scaled_le.
  - assert (Hy : 0 < y) by lra.
    destruct (ilog2_spec x Hx) as [_ Ux]. destruct (ilog2_spec y Hy) as [Ly _].
    assert (Ey : fexp y = (ilog2 y - 52)%Z) by (unfold fexp in *; lia).
    assert (Ix : (ilog2 x + 1 <= ilog2 y)%Z) by (unfold fexp in *; lia).
    pose proof (pow2_le _ _ Ix) as P.
    apply Qle_trans with (2 ^ ilog2 y).
    + rewrite round_pos_eq. rewrite <- (rne_pow2 (ilog2 y) (fexp x)) by lia.
      apply round_scaled_le. lra.
    + rewrite round_pos_eq. rewrite <- (rne_pow2 (ilog2 y) (fexp y)) at 1 by lia.
      now apply round_scaled_le.
Qed.

Lemma round_pos_exact (x : Q) (m : Z) :
  x * 2 ^ (- fexp x) == inject_Z m -> round_pos x == x.
Proof.
  intros E. rewrite round_pos_eq. rewrite (rne_comp _ _ E), rne_Z, <- E.
  rewrite <- Qmult_assoc, pow2_cancel. ring.
Qed.

Lemma round_pos_Z (z : Z) : (0 < z < 2 ^ 53)%Z -> round_pos (inject_Z z) == inject_Z z.
Proof.
  intros [Hz Hb].
  assert (Hq : 0 < inject_Z z) by (change 0 with (inject_Z 0); now rewrite <- Zlt_Qlt).
  destruct (ilog2_spec _ Hq) as [L _].
  assert (I : (ilog2 (inject_Z z) < 53)%Z).
  { apply pow2_lt_inv. apply Qle_lt_trans with (inject_Z z); [assumption|].
    rewrite pow2_Z by lia. now rewrite <- Zlt_Qlt. }
  assert (F : (fexp (inject_Z z) <= 0)%Z) by (unfold fexp; lia).
  apply round_pos_exact with (m := (z * 2 ^ (- fexp (inject_Z z)))%Z).
  rewrite inject_Z_mult, <- pow2_Z by lia. reflexivity.
Qed.

Lemma round64_comp (x y : Q) : x == y -> round64 x == round64 y.
Proof.
  intros E. unfold round64.
  assert (C : Qcompare x 0 = Qcompare y 0).
  { apply Qcompare_comp; [exact E | reflexivity]. }
  rewrite <- C. destruct (Qcompare x 0) eqn:Cx; [reflexivity| |].
  - apply <- Qlt_alt in Cx. apply Qopp_comp, round_pos_comp; [lra | now apply Qopp_comp].
  - apply <- Qgt_alt in Cx. apply round_pos_comp; [lra | assumption].
Qed.

Lemma round64_opp (x : Q) : round64 (- x) == - round64 x.
Proof.
  unfold round64.
  destruct (Qcompare x 0) eqn:Cx.
  - apply <- Qeq_alt in Cx. assert (C : Qcompare (- x) 0 = Eq) by (apply -> Qeq_alt; lra).
    rewrite C. reflexivity.
  - apply <- Qlt_alt in Cx. assert (C : Qcompare (- x) 0 = Gt) by (apply -> Qgt_alt; lra).
    rewrite C. ring.
  - apply <- Qgt_alt in Cx. assert (C : Qcompare (- x) 0 = Lt) by (apply -> Qlt_alt; lra).
    rewrite C. apply Qopp_comp, round_pos_comp; [lra | ring].
Qed.

Lemma round64_pos (x : Q) : 0 < x -> round64 x = round_pos x.
Proof.
  intros H. unfold round64. assert (C : Qcompare x 0 = Gt) by (now apply -> Qgt_alt).
  now rewrite C.
Qed.

Lemma round64_nonneg (x : Q) : 0 <= x -> 0 <= round64 x.
Proof.
  intros H. destruct (Qeq_dec x 0) as [E|N].
  - rewrite (round64_comp _ _ E). apply Qle_refl.
  - assert (P : 0 < x) by (apply Qle_lteq in H; destruct H; [assumption | now symmetry in H]).
    rewrite round64_pos by assumption. now apply round_pos_nonneg.
Qed.

Lemma round64_le (x y : Q) : x <= y -> round64 x <= round64 y.
Proof.
  intros L.
  destruct (Qlt_le_dec 0 x) as [Px|Nx].
  - rewrite !round64_pos by lra. now apply round_pos_le.
  - destruct (Qlt_le_dec 0 y) as [Py|Ny].
    + apply Qle_trans with 0; [|apply round64_nonneg; lra].
      assert (H : 0 <= round64 (- x)) by (apply round64_nonneg; lra).
      rewrite round64_opp in H. lra.
    + assert (H : round64 (- y) <= round64 (- x)).
      { destruct (Qeq_dec y 0) as [E|N].
        - assert (E' : - y == 0) by lra. rewrite (round64_comp _ _ E').
          apply round64_nonneg. lra.
        - assert (0 < - y).
          { apply Qle_lteq in Ny. destruct Ny; [lra | contradiction]. }
          rewrite !round64_pos by lra. apply round_pos_le; lra. }
      rewrite !round64_opp in H. lra.
Qed.

Lemma round64_Z (z : Z) : (- 2 ^ 53 <= z <= 2 ^ 53)%Z -> round64 (inject_Z z) == inject_Z z.
Proof.
  intros H.
  assert (B : round64 (inject_Z (2 ^ 53)) == inject_Z (2 ^ 53)) by (vm_compute; reflexivity).
  destruct (Z.eq_dec z (2 ^ 53)%Z) as [->|N1]; [exact B|].
  destruct (Z.eq_dec z (- 2 ^ 53)%Z) as [->|N2].
  { rewrite inject_Z_opp, round64_opp. now rewrite B. }
  destruct (Z.lt_trichotomy z 0) as [Neg|[->|Pos]].
  - assert (E : inject_Z z == - inject_Z (- z)) by (rewrite inject_Z_opp; ring).
    rewrite (round64_comp _ _ E), round64_opp, round64_pos.
    + now rewrite round_pos_Z by lia.
    + change 0 with (inject_Z 0). rewrite <- Zlt_Qlt. lia.
  - reflexivity.
  - rewrite round64_pos; [apply round_pos_Z; lia|].
    change 0 with (inject_Z 0). now rewrite <- Zlt_Qlt.
Qed.

(** The values of [round64] are fractions in lowest terms. *)
Lemma Qred_inject_Z (z : Z) : Qred (inject_Z z) = inject_Z z.
Proof.
  unfold Qred, inject_Z.
  pose proof (Z.ggcd_gcd z (Zpos 1)) as G.
  pose proof (Z.ggcd_correct_divisors z (Zpos 1)) as D.
  destruct (Z.ggcd z (Zpos 1)) as [g [a b]]. simpl in *.
  rewrite Z.gcd_1_r in G. subst g. destruct D as [Da Db].
  assert (Ea : z = a) by lia. assert (Eb : b = 1%Z) by lia.
  rewrite Ea, Eb. reflexivity.
Qed.

Lemma round64_reduced (x : Q) : Qred (round64 x) = round64 x.
Proof.
  unfold round64. destruct (Qcompare x 0); [reflexivity| |]; unfold round_pos.
  - rewrite Qred_opp. f_equal. apply Qred_complete, Qred_correct.
  - apply Qred_complete, Qred_correct.
Qed.

Lemma round64_Z_eq (x : Q) (z : Z) :
  (- 2 ^ 53 <= z <= 2 ^ 53)%Z -> x == inject_Z z -> round64 x = inject_Z z.
Proof.
  intros Hz E. rewrite <- round64_reduced, <- Qred_inject_Z.
  apply Qred_complete. rewrite (round64_comp _ _ E). now apply round64_Z.
Qed.

End Binary64Facts.

(** ** Arithmetic of the functions *)

Module Arith.

Import Binary64 Binary64Facts.
Local Open Scope Q_scope.

Lemma b64_in_range (x : Q) (b : Z) :
  (0 <= b <= 2 ^ 53)%Z -> - inject_Z b <= x <= inject_Z b ->
  b64 x = Fin (round64 x) /\ - inject_Z b <= round64 x <= inject_Z b.
Proof.
  intros Hb [L U].
  assert (R : - inject_Z b <= round64 x <= inject_Z b).
  { split.
    - rewrite <- (round64_Z (- b)) by lia.
      apply round64_le. now rewrite inject_Z_opp.
    - rewrite <- (round64_Z b) by lia. now apply round64_le. }
  split; [|exact R].
  assert (B : inject_Z b < 2 ^ 1024).
  { apply Qle_lt_trans with (inject_Z (2 ^ 53)); [rewrite <- Zle_Qle; lia|].
    rewrite <- pow2_Z by lia. apply pow2_lt. lia. }
  unfold b64.
  destruct (Qle_bool (2 ^ 1024) (round64 x)) eqn:T1.
  { apply Qle_bool_iff in T1. lra. }
  destruct (Qle_bool (round64 x) (- 2 ^ 1024)) eqn:T2.
  { apply Qle_bool_iff in T2. lra. }
  reflexivity.
Qed.

Lemma b64_unit_interval (x : Q) (b : Z) :
  (0 <= b <= 2 ^ 53)%Z -> 0 <= x <= inject_Z b ->
  exists y, b64 x = Fin y /\ 0 <= y <= inject_Z b.
Proof.
  intros Hb [L U].
  assert (0 <= inject_Z b) by (change 0 with (inject_Z 0); rewrite <- Zle_Qle; lia).
  destruct (b64_in_range x b Hb) as [E [_ R]]; [split; lra|].
  exists (round64 x). split; [exact E|]. split; [|exact R].
  now apply round64_nonneg.
Qed.

Lemma Qle_bool_false (x y : Q) : Qle_bool x y = false -> y < x.
Proof.
  intros H. apply Qnot_le_lt. intros C. apply Qle_bool_iff in C. congruence.
Qed.

Lemma safeRemaining_clamped (remaining limit : Q) :
  0 < limit -> exists s, safeRemaining remaining limit = Fin s /\ 0 <= s <= limit.
Proof.
  intros Hl. unfold safeRemaining, Math_min.
  destruct (Qle_bool remaining limit) eqn:T; unfold Math_max.
  - apply Qle_bool_iff in T.
    destruct (Qle_bool 0 remaining) eqn:T0.
    + apply Qle_bool_iff in T0. exists remaining. split; [reflexivity | split; assumption].
    + exists 0. split; [reflexivity | split; lra].
  - destruct (Qle_bool 0 limit) eqn:T0.
    + exists limit. split; [reflexivity | split; lra].
    + apply Qle_bool_false in T0. lra.
Qed.

Lemma Qeq_bool_pos (x : Q) : 0 < x -> Qeq_bool x 0 = false.
Proof.
  intros H. destruct (Qeq_bool x 0) eqn:E; [|reflexivity].
  apply Qeq_bool_iff in E. lra.
Qed.

Lemma ratio_bounds (s l : Q) : 0 < l -> 0 <= s <= l -> 0 <= s / l <= 1.
Proof.
  intros Hl [L U]. split.
  - apply Qle_shift_div_l; [assumption | lra].
  - apply Qle_shift_div_r; [assumption | lra].
Qed.

Lemma percentage_of_range (remaining limit : Q) :
  0 < limit ->
  exists z, percentage_of remaining limit = Fin (inject_Z z) /\ (0 <= z <= 100)%Z.
Proof.
  intros Hl. unfold percentage_of.
  destruct (safeRemaining_clamped remaining limit Hl) as [s [-> Hs]].
  unfold div. rewrite Qeq_bool_pos by assumption.
  destruct (b64_unit_interval (s / limit) 1) as [y [-> Hy]]; [lia | now apply ratio_bounds |].
  unfold mul.
  destruct (b64_unit_interval (y * 100) 100) as [w [-> Hw]]; [lia | | ].
  { unfold inject_Z in *. split; lra. }
  unfold Math_round. eexists. split; [reflexivity|].
  unfold inject_Z in Hw.
  split.
  - change 0%Z with (Qfloor 0). apply Qfloor_resp_le. lra.
  - change 100%Z with (Qfloor (100 + (1 # 2))). apply Qfloor_resp_le. lra.
Qed.

Lemma b64_exact (x : Q) (z : Z) :
  (- 2 ^ 53 <= z <= 2 ^ 53)%Z -> x == inject_Z z -> b64 x = Fin (inject_Z z).
Proof.
  intros Hz E.
  assert (R : round64 x = inject_Z z) by now apply round64_Z_eq.
  assert (B : inject_Z (2 ^ 53) < 2 ^ 1024).
  { rewrite <- pow2_Z by lia. apply pow2_lt. lia. }
  assert (Hz' : - inject_Z (2 ^ 53) <= inject_Z z <= inject_Z (2 ^ 53)).
  { rewrite <- inject_Z_opp, <- !Zle_Qle. lia. }
  unfold b64. rewrite R.
  destruct (Qle_bool (2 ^ 1024) (inject_Z z)) eqn:T1.
  { apply Qle_bool_iff in T1. lra. }
  destruct (Qle_bool (inject_Z z) (- 2 ^ 1024)) eqn:T2.
  { apply Qle_bool_iff in T2. lra. }
  reflexivity.
Qed.

Lemma Qfloor_half (y : Q) (z : Z) : y == inject_Z z -> Qfloor (y + (1 # 2)) = z.
Proof.
  intros E.
  pose proof (Qfloor_le (y + (1 # 2))) as L.
  pose proof (Qlt_floor (y + (1 # 2))) as U.
  assert (A : (Qfloor (y + (1 # 2)) < z + 1)%Z).
  { rewrite Zlt_Qlt, inject_Z_plus. unfold inject_Z at 3. lra. }
  assert (B : (z < Qfloor (y + (1 # 2)) + 1)%Z).
  { rewrite Zlt_Qlt. lra. }
  lia.
Qed.

Lemma Math_round_exact (y : Q) (z : Z) : y == inject_Z z -> Math_round (Fin y) = Fin (inject_Z z).
Proof. intros E. unfold Math_round. now rewrite (Qfloor_half y z E). Qed.

Lemma Qle_bool_refl (x : Q) : Qle_bool x x = true.
Proof. apply Qle_bool_iff, Qle_refl. Qed.

Lemma safeRemaining_full (limit : Q) : 0 < limit -> safeRemaining limit limit = Fin limit.
Proof.
  intros Hl. unfold safeRemaining, Math_min, Math_max. rewrite Qle_bool_refl.
  assert (T : Qle_bool 0 limit = true) by (apply Qle_bool_iff; lra).
  now rewrite T.
Qed.

Lemma percentage_of_full (limit : Q) : 0 < limit -> percentage_of limit limit = Fin 100.
Proof.
  intros Hl. unfold percentage_of. rewrite safeRemaining_full by assumption.
  unfold div. rewrite Qeq_bool_pos by assumption.
  rewrite (b64_exact (limit / limit) 1); [| lia | unfold inject_Z; field; lra].
  unfold mul. rewrite (b64_exact (inject_Z 1 * 100) 100); [| lia | reflexivity].
  reflexivity.
Qed.

Lemma b64_zero (x : Q) : x == 0 -> b64 x = Fin 0.
Proof.
  intros E. unfold b64, round64.
  assert (C : Qcompare x 0 = Eq) by (now apply -> Qeq_alt).
  rewrite C. reflexivity.
Qed.

Lemma used_of_full (limit : Q) : used_of limit limit = Fin 0.
Proof.
  unfold used_of, sub. rewrite b64_zero by ring. reflexivity.
Qed.

Lemma used_label_zero_requests :
  Number_toString (Fin 0) = "0"%string.
Proof. reflexivity. Qed.

Lemma used_label_zero_tokens :
  toFixed (div (Fin 0) (Fin 1000)) 1 = "0.0"%string.
Proof. vm_compute. reflexivity. Qed.

(** Round trip of the window length *)
Lemma window_minutes_of_hours (h : Z) :
  (0 < h)%Z -> (h * 60 <= 2 ^ 53)%Z ->
  window_minutes_of (VNum (Fin (inject_Z h))) = Fin (inject_Z (h * 60)).
Proof.
  intros Hh Hb. unfold window_minutes_of, truthy.
  assert (P : 0 < inject_Z h) by (change 0 with (inject_Z 0); now rewrite <- Zlt_Qlt).
  rewrite Qeq_bool_pos by assumption. simpl negb. cbn iota. unfold ToNumber, mul.
  apply b64_exact; [lia|]. rewrite inject_Z_mult. reflexivity.
Qed.

Lemma windowHours_of_minutes (m : Q) (h : Z) :
  (- 2 ^ 53 <= h <= 2 ^ 53)%Z -> m == inject_Z (h * 60) ->
  windowHours_of (val m) = Fin (inject_Z h).
Proof.
  intros Hh E. unfold windowHours_of, div.
  assert (T : Qeq_bool 60 0 = false) by reflexivity. rewrite T.
  rewrite (b64_exact (m / 60) h); [| lia |].
  - now apply Math_round_exact.
  - rewrite E, inject_Z_mult. unfold inject_Z at 2. field.
Qed.

(** Below zero the clamp leaves nothing: the percentage is 0. *)
Lemma percentage_of_negative (remaining limit : Q) :
  limit < 0 -> percentage_of remaining limit = Fin 0.
Proof.
  intros Hl. unfold percentage_of.
  assert (S : safeRemaining remaining limit = Fin 0).
  { unfold safeRemaining, Math_min.
    destruct (Qle_bool remaining limit) eqn:T; unfold Math_max.
    - apply Qle_bool_iff in T.
      destruct (Qle_bool 0 remaining) eqn:T0; [|reflexivity].
      apply Qle_bool_iff in T0. lra.
    - destruct (Qle_bool 0 limit) eqn:T0; [|reflexivity].
      apply Qle_bool_iff in T0. lra. }
  rewrite S. unfold div.
  assert (N : Qeq_bool limit 0 = false).
  { destruct (Qeq_bool limit 0) eqn:E; [|reflexivity]. apply Qeq_bool_iff in E. lra. }
  rewrite N, b64_zero by (field; lra).
  unfold mul. rewrite b64_zero by ring. reflexivity.
Qed.

(** Whatever the limit and the remaining amount, the percentage of a limited
    configuration is an integer from 0 to 100. *)
Lemma percentage_of_bounded (remaining limit : Q) :
  ~ limit == 0 ->
  exists z, percentage_of remaining limit = Fin (inject_Z z) /\ (0 <= z <= 100)%Z.
Proof.
  intros Hn. destruct (Q_dec limit 0) as [[Neg|Pos]|Z].
  - exists 0%Z. rewrite percentage_of_negative by assumption. split; [reflexivity | lia].
  - now apply percentage_of_range.
  - contradiction.
Qed.

End Arith.

(** ** The loop of loadRateLimitsConfig *)

Section LoadFacts.

Variable statusMap : gmap string Status.t.

Lemma push_limits (l : Limit.t) (p : Provider.t) (e : Limit.t) :
  In e (Provider.limits (push l p)) <-> In e (Provider.limits p) \/ e = l.
Proof.
  unfold push. simpl. rewrite in_app_iff. simpl. intuition congruence.
Qed.

Lemma forEach_body_adds (ps ps' : gmap string Provider.t) (conf : Conf.t) :
  forEach_body statusMap ps conf = Normal ps' ->
  exists name p,
    Conf.provider conf = val name /\
    ps' !! toLowerCase name = Some p /\
    In (limit_of statusMap conf) (Provider.limits p).
Proof.
  unfold forEach_body. intros H.
  destruct (Conf.provider conf) as [| |name]; try discriminate.
  exists name.
  destruct (ps !! toLowerCase name) as [p|] eqn:L.
  - injection H as <-. eexists. split; [reflexivity|].
    rewrite lookup_insert_eq. split; [reflexivity|]. apply push_limits. now right.
  - destruct (inherited (toLowerCase name)); [discriminate|].
    injection H as <-. eexists. split; [reflexivity|].
    rewrite lookup_insert_eq. split; [reflexivity|]. apply push_limits. now right.
Qed.

Lemma forEach_body_keeps (ps ps' : gmap string Provider.t) (conf : Conf.t)
    (key : string) (p : Provider.t) (e : Limit.t) :
  forEach_body statusMap ps conf = Normal ps' ->
  ps !! key = Some p -> In e (Provider.limits p) ->
  exists p', ps' !! key = Some p' /\ In e (Provider.limits p').
Proof.
  unfold forEach_body. intros H Hp He.
  destruct (Conf.provider conf) as [| |name]; try discriminate.
  destruct (decide (toLowerCase name = key)) as [E|N].
  - rewrite E, Hp in H. injection H as <-. eexists.
    rewrite lookup_insert_eq. split; [reflexivity|]. apply push_limits. now left.
  - destruct (ps !! toLowerCase name) as [q|].
    + injection H as <-. exists p. now rewrite lookup_insert_ne.
    + destruct (inherited (toLowerCase name)); [discriminate|].
      injection H as <-. exists p. now rewrite lookup_insert_ne.
Qed.

Lemma forEach_keeps (configs : list Conf.t) :
  forall (ps ps' : gmap string Provider.t) (key : string) (p : Provider.t) (e : Limit.t),
  forEach statusMap ps configs = Normal ps' ->
  ps !! key = Some p -> In e (Provider.limits p) ->
  exists p', ps' !! key = Some p' /\ In e (Provider.limits p').
Proof.
  induction configs as [|conf rest IH]; intros ps ps' key p e H Hp He; simpl in H.
  - injection H as <-. eauto.
  - destruct (forEach_body statusMap ps conf) as [ps1|] eqn:B; [|discriminate].
    simpl in H.
    destruct (forEach_body_keeps _ _ _ _ _ _ B Hp He) as [p1 [Hp1 He1]].
    eapply IH; eassumption.
Qed.

Lemma forEach_adds (configs : list Conf.t) :
  forall (ps ps' : gmap string Provider.t) (conf : Conf.t),
  forEach statusMap ps configs = Normal ps' -> In conf configs ->
  exists name p,
    Conf.provider conf = val name /\
    ps' !! toLowerCase name = Some p /\
    In (limit_of statusMap conf) (Provider.limits p).
Proof.
  induction configs as [|c rest IH]; intros ps ps' conf H Hin; simpl in H.
  - destruct Hin.
  - destruct (forEach_body statusMap ps c) as [ps1|] eqn:B; [|discriminate].
    simpl in H. destruct Hin as [->|Hin].
    + destruct (forEach_body_adds _ _ _ B) as [name [p [Hn [Hp He]]]].
      destruct (forEach_keeps _ _ _ _ _ _ H Hp He) as [p' [Hp' He']].
      exists name, p'. auto.
    + eapply IH; eassumption.
Qed.

(** The loop throws as soon as a configuration has no provider string, and
    what was built before is lost with it. *)
Lemma forEach_throws (configs : list Conf.t) :
  forall (ps : gmap string Provider.t) (conf : Conf.t),
  In conf configs -> (forall name, Conf.provider conf <> val name) ->
  exists e, forEach statusMap ps configs = Throw e.
Proof.
  induction configs as [|c rest IH]; intros ps conf Hin Hbad.
  - destruct Hin.
  - simpl. destruct (forEach_body statusMap ps c) as [ps1|e] eqn:B; simpl.
    + destruct Hin as [->|Hin]; [|eapply IH; eassumption].
      unfold forEach_body in B. destruct (Conf.provider conf) as [| |name]; try discriminate.
      now destruct (Hbad name).
    + eauto.
Qed.

(** On configurations that are all well formed the loop runs to its end. *)
Lemma forEach_returns (configs : list Conf.t) :
  Forall well_formed configs ->
  forall ps : gmap string Provider.t, exists ps', forEach statusMap ps configs = Normal ps'.
Proof.
  induction 1 as [|conf rest [name [Hn Hi]] _ IH]; intros ps; simpl.
  - eauto.
  - unfold forEach_body. rewrite Hn, Hi.
    destruct (ps !! toLowerCase name); simpl; apply IH.
Qed.

End LoadFacts.

Lemma load_some (configsQuery : settled (Response (list Conf.t)))
    (statusQuery : settled (Response (list Status.t))) (ui : UiConfig) :
  loadRateLimitsConfig configsQuery statusQuery = Some ui ->
  forEach (statusMap_of (rows_of statusQuery)) ∅ (rows_of configsQuery)
  = Normal (providers ui).
Proof.
  unfold loadRateLimitsConfig, load_try, await_all, load_body.
  destruct configsQuery as [cr|], statusQuery as [sr|]; simpl; try discriminate.
  destruct (error cr); [discriminate|].
  destruct (data cr) as [configs|]; [|discriminate].
  destruct (forEach _ _ configs) as [ps|] eqn:F; simpl; [|discriminate].
  intros [= <-]. reflexivity.
Qed.

Lemma load_reports (configsQuery : settled (Response (list Conf.t)))
    (statusQuery : settled (Response (list Status.t))) (ui : UiConfig) (conf : Conf.t) :
  loadRateLimitsConfig configsQuery statusQuery = Some ui ->
  In conf (rows_of configsQuery) ->
  reports ui conf (limit_of (statusMap_of (rows_of statusQuery)) conf).
Proof.
  intros H Hin. apply load_some in H.
  exact (forEach_adds _ _ _ _ _ H Hin).
Qed.

(** The function returns a structure when both queries are answered, the
    first without error and with rows that are all well formed. *)
Lemma load_returns (configsResult : Response (list Conf.t))
    (statusResult : Response (list Status.t)) (configs : list Conf.t) :
  error configsResult = None -> data configsResult = Some configs ->
  Forall well_formed configs ->
  exists ui, loadRateLimitsConfig (Fulfilled configsResult) (Fulfilled statusResult) = Some ui.
Proof.
  intros He Hd Hw. unfold loadRateLimitsConfig, load_try, load_body. simpl.
  rewrite He, Hd.
  destruct (forEach_returns (statusMap_of (match data statusResult with
                                            | Some rows => rows
                                            | None => nil
                                            end)) configs Hw ∅) as [ps ->].
  simpl. eauto.
Qed.

(** ** What loadRateLimitsConfig reports *)

Import Binary64 Binary64Facts Arith.

Section LoadClaims.

Local Open Scope Q_scope.

Lemma unset_truthy (a : maybe Q) : unset a -> truthy_num a = None.
Proof.
  intros [->|[->|[x [-> E]]]]; try reflexivity.
  simpl. apply Qeq_bool_iff in E. now rewrite E.
Qed.

Lemma truthy_num_val (a : maybe Q) (l : Q) : truthy_num a = Some l -> a = val l /\ ~ l == 0.
Proof.
  destruct a as [| |x]; simpl; try discriminate.
  destruct (Qeq_bool x 0) eqn:E; [discriminate|].
  intros [= <-]. split; [reflexivity|]. intros C. apply Qeq_bool_iff in C. congruence.
Qed.

Lemma quota_of_unlimited (status : option Status.t) (conf : Conf.t) :
  limit_in_effect conf = None ->
  quota_of status conf
  = {| limitVal := 0; limitUnit := "requests"; percentage := Fin 100; usedLabel := "Unlimited" |}.
Proof.
  unfold limit_in_effect, quota_of.
  destruct (truthy_num (Conf.token_limit conf)); [discriminate|].
  now intros ->.
Qed.

Lemma quota_of_limited (status : option Status.t) (conf : Conf.t) (l : Q) :
  limit_in_effect conf = Some l ->
  limitVal (quota_of status conf) = l /\
  percentage (quota_of status conf) = percentage_of (nullish (remaining_read status conf) l) l.
Proof.
  unfold limit_in_effect, remaining_read, quota_of.
  destruct (truthy_num (Conf.token_limit conf)) as [t|].
  - intros [= ->]. now split.
  - intros ->. now split.
Qed.

(** C5: a configuration with neither limit set (null, zero or absent) is
    reported as unlimited, with percentage exactly 100 and limit 0, whatever
    the status rows hold. *)
Theorem unlimited_reports_100 (configsQuery : settled (Response (list Conf.t)))
    (statusQuery : settled (Response (list Status.t))) (ui : UiConfig) (conf : Conf.t) :
  loadRateLimitsConfig configsQuery statusQuery = Some ui ->
  In conf (rows_of configsQuery) ->
  unset (Conf.token_limit conf) -> unset (Conf.request_limit conf) ->
  exists e,
    reports ui conf e /\ Limit.id e = Conf.id conf /\
    BackendStatus.percentage (Limit.backendStatus e) = Fin 100 /\
    BackendStatus.label (Limit.backendStatus e) = "Unlimited"%string /\
    Limit.limit e = 0.
Proof.
  intros Hload Hin Ht Hr.
  exists (limit_of (statusMap_of (rows_of statusQuery)) conf).
  split; [now apply (load_reports configsQuery)|].
  unfold limit_of. simpl. rewrite quota_of_unlimited; [now repeat split|].
  unfold limit_in_effect. now rewrite (unset_truthy _ Ht), (unset_truthy _ Hr).
Qed.

Lemma unlimited_reports_100_witness :
  exists ui e,
    loadRateLimitsConfig (ok sample_configs) (ok sample_statuses) = Some ui /\
    reports ui (sample_conf "c3" "Google" null null) e /\
    BackendStatus.percentage (Limit.backendStatus e) = Fin 100.
Proof.
  eexists.
  assert (L : loadRateLimitsConfig (ok sample_configs) (ok sample_statuses) = Some _)
    by reflexivity.
  destruct (unlimited_reports_100 _ _ _ (sample_conf "c3" "Google" null null) L)
    as [e [R [_ [P _]]]].
  - simpl. auto.
  - right. now left.
  - right. now left.
  - exists e. auto.
Defined.

(** C2: for a configuration whose limit in effect is positive, whatever
    the status row holds for the remaining amount, the amount entering the
    percentage is clamped to the interval from 0 to the limit and the
    percentage reported is an integer from 0 to 100. *)
Theorem remaining_clamped_percentage_bounded
    (configsQuery : settled (Response (list Conf.t)))
    (statusQuery : settled (Response (list Status.t))) (ui : UiConfig) (conf : Conf.t) (l : Q) :
  loadRateLimitsConfig configsQuery statusQuery = Some ui ->
  In conf (rows_of configsQuery) ->
  limit_in_effect conf = Some l -> 0 < l ->
  let status := statusMap_of (rows_of statusQuery) !! Conf.id conf in
  let remaining := nullish (remaining_read status conf) l in
  exists e s z,
    reports ui conf e /\ Limit.id e = Conf.id conf /\
    safeRemaining remaining l = Fin s /\ 0 <= s <= l /\
    BackendStatus.percentage (Limit.backendStatus e) = percentage_of remaining l /\
    BackendStatus.percentage (Limit.backendStatus e) = Fin (inject_Z z) /\
    (0 <= z <= 100)%Z.
Proof.
  intros Hload Hin Hl Hpos status remaining.
  destruct (safeRemaining_clamped remaining l Hpos) as [s [Hs Hb]].
  destruct (percentage_of_range remaining l Hpos) as [z [Hz Hzb]].
  exists (limit_of (statusMap_of (rows_of statusQuery)) conf), s, z.
  split; [now apply (load_reports configsQuery)|].
  destruct (quota_of_limited status conf l Hl) as [_ Hp].
  unfold limit_of. simpl. fold status. rewrite Hp. fold remaining.
  repeat split; try assumption; try apply Hb; apply Hzb.
Qed.

Lemma remaining_clamped_percentage_bounded_witness :
  exists ui e s z,
    loadRateLimitsConfig (ok sample_configs) (ok sample_statuses) = Some ui /\
    reports ui (sample_conf "c1" "OpenAI" (val 100000) null) e /\
    safeRemaining 250000 100000 = Fin s /\ 0 <= s <= 100000 /\
    BackendStatus.percentage (Limit.backendStatus e) = Fin (inject_Z z) /\
    (0 <= z <= 100)%Z.
Proof.
  eexists.
  assert (L : loadRateLimitsConfig (ok sample_configs) (ok sample_statuses) = Some _)
    by reflexivity.
  destruct (remaining_clamped_percentage_bounded _ _ _
              (sample_conf "c1" "OpenAI" (val 100000) null) 100000 L)
    as [e [s [z [R [_ [S [B [_ [P Z]]]]]]]]].
  - simpl. auto.
  - reflexivity.
  - reflexivity.
  - exists e, s, z. repeat split; try assumption; try apply B; apply Z.
Defined.

Lemma quota_of_requests (status : option Status.t) (conf : Conf.t) (l : Q) :
  truthy_num (Conf.token_limit conf) = None ->
  truthy_num (Conf.request_limit conf) = Some l ->
  let remaining := nullish (opt_field Status.remaining_requests status) l in
  quota_of status conf
  = {| limitVal := l;
       limitUnit := "requests";
       percentage := percentage_of remaining l;
       usedLabel := Number_toString (used_of remaining l) ++ " / " ++ Number_toString (Fin l) |}.
Proof. intros Ht Hr. unfold quota_of. now rewrite Ht, Hr. Qed.

Lemma quota_of_tokens (status : option Status.t) (conf : Conf.t) (l : Q) :
  truthy_num (Conf.token_limit conf) = Some l ->
  let remaining := nullish (opt_field Status.remaining_tokens status) l in
  quota_of status conf
  = {| limitVal := l;
       limitUnit := "tokens";
       percentage := percentage_of remaining l;
       usedLabel := toFixed (div (used_of remaining l) (Fin 1000)) 1 ++ "k / "
                    ++ toFixed (div (Fin l) (Fin 1000)) 0 ++ "k" |}.
Proof. intros Ht. unfold quota_of. now rewrite Ht. Qed.

(** C8: a configuration limited to 1000 requests whose status row holds 400
    remaining requests is reported with percentage 40 and the label
    "600 / 1000". *)
Theorem scenario_requests_400_of_1000
    (configsQuery : settled (Response (list Conf.t)))
    (statusQuery : settled (Response (list Status.t))) (ui : UiConfig)
    (conf : Conf.t) (status : Status.t) :
  loadRateLimitsConfig configsQuery statusQuery = Some ui ->
  In conf (rows_of configsQuery) ->
  unset (Conf.token_limit conf) -> Conf.request_limit conf = val 1000 ->
  statusMap_of (rows_of statusQuery) !! Conf.id conf = Some status ->
  Status.remaining_requests status = val 400 ->
  exists e,
    reports ui conf e /\ Limit.id e = Conf.id conf /\
    BackendStatus.percentage (Limit.backendStatus e) = Fin 40 /\
    BackendStatus.label (Limit.backendStatus e) = "600 / 1000"%string.
Proof.
  intros Hload Hin Ht Hr Hs Hrem.
  exists (limit_of (statusMap_of (rows_of statusQuery)) conf).
  split; [now apply (load_reports configsQuery)|].
  unfold limit_of. simpl. rewrite Hs.
  rewrite (quota_of_requests _ _ 1000); [| now apply unset_truthy | now rewrite Hr].
  simpl. rewrite Hrem. simpl nullish.
  repeat split; vm_compute; reflexivity.
Qed.

Lemma scenario_requests_400_of_1000_witness :
  exists ui e,
    loadRateLimitsConfig (ok sample_configs) (ok sample_statuses) = Some ui /\
    reports ui (sample_conf "c2" "Anthropic" null (val 1000)) e /\
    BackendStatus.percentage (Limit.backendStatus e) = Fin 40 /\
    BackendStatus.label (Limit.backendStatus e) = "600 / 1000"%string.
Proof.
  eexists.
  assert (L : loadRateLimitsConfig (ok sample_configs) (ok sample_statuses) = Some _)
    by reflexivity.
  destruct (scenario_requests_400_of_1000 _ _ _
              (sample_conf "c2" "Anthropic" null (val 1000))
              (sample_status "c2" null (val 400)) L)
    as [e [R [_ [P B]]]].
  - simpl. auto.
  - right. now left.
  - reflexivity.
  - reflexivity.
  - reflexivity.
  - exists e. auto.
Defined.

(** C9, as the code has it: a configuration whose limit in effect is
    positive and whose id has no status row (none at all when the status
    query failed) is reported with the remaining amount defaulted to the full
    limit: percentage 100 and a used amount of 0 in the label. *)
Theorem missing_status_defaults_to_full_limit
    (configsQuery : settled (Response (list Conf.t)))
    (statusQuery : settled (Response (list Status.t))) (ui : UiConfig) (conf : Conf.t) (l : Q) :
  loadRateLimitsConfig configsQuery statusQuery = Some ui ->
  In conf (rows_of configsQuery) ->
  limit_in_effect conf = Some l -> 0 < l ->
  statusMap_of (rows_of statusQuery) !! Conf.id conf = None ->
  exists e,
    reports ui conf e /\ Limit.id e = Conf.id conf /\
    nullish (remaining_read None conf) l = l /\
    used_of l l = Fin 0 /\
    BackendStatus.percentage (Limit.backendStatus e) = Fin 100 /\
    (BackendStatus.label (Limit.backendStatus e)
     = ("0 / " ++ Number_toString (Fin l))%string \/
     BackendStatus.label (Limit.backendStatus e)
     = ("0.0k / " ++ toFixed (div (Fin l) (Fin 1000)) 0 ++ "k")%string).
Proof.
  intros Hload Hin Hl Hpos Hs.
  exists (limit_of (statusMap_of (rows_of statusQuery)) conf).
  split; [now apply (load_reports configsQuery)|].
  split; [reflexivity|].
  split; [unfold remaining_read; now destruct (truthy_num (Conf.token_limit conf))|].
  split; [apply used_of_full|].
  unfold limit_of. simpl. rewrite Hs.
  unfold limit_in_effect in Hl.
  destruct (truthy_num (Conf.token_limit conf)) as [t|] eqn:Ht.
  - injection Hl as ->. rewrite (quota_of_tokens _ _ l Ht). simpl.
    rewrite percentage_of_full, used_of_full by assumption.
    split; [reflexivity|]. right. reflexivity.
  - rewrite (quota_of_requests _ _ l Ht Hl). simpl.
    rewrite percentage_of_full, used_of_full by assumption.
    split; [reflexivity|]. left. reflexivity.
Qed.

Lemma missing_status_defaults_to_full_limit_witness :
  exists ui e,
    loadRateLimitsConfig (ok sample_configs) (ok nil) = Some ui /\
    reports ui (sample_conf "c2" "Anthropic" null (val 1000)) e /\
    BackendStatus.percentage (Limit.backendStatus e) = Fin 100.
Proof.
  eexists.
  assert (L : loadRateLimitsConfig (ok sample_configs) (ok nil) = Some _)
    by reflexivity.
  destruct (missing_status_defaults_to_full_limit _ _ _
              (sample_conf "c2" "Anthropic" null (val 1000)) 1000 L)
    as [e [R [_ [_ [_ [P _]]]]]].
  - simpl. auto.
  - reflexivity.
  - reflexivity.
  - reflexivity.
  - exists e. auto.
Defined.

(** C9 as stated fails for a limit below zero: with no status row the
    remaining amount defaults to the limit, the clamp raises it to 0, and the
    percentage reported is 0. *)
Lemma negative_limit_reports_0 :
  exists ui p e,
    loadRateLimitsConfig
      (ok (sample_conf "c4" "OpenAI" (val (-5)) null :: nil)) (ok nil) = Some ui /\
    providers ui !! "openai"%string = Some p /\
    Provider.limits p = e :: nil /\
    Limit.id e = "c4"%string /\
    BackendStatus.percentage (Limit.backendStatus e) = Fin 0 /\
    BackendStatus.percentage (Limit.backendStatus e) <> Fin 100.
Proof.
  do 3 eexists.
  split; [reflexivity|]. split; [reflexivity|]. split; [reflexivity|].
  split; [reflexivity|]. split; [reflexivity|]. discriminate.
Qed.

(** The status query failing leaves every configuration without a row. *)
Lemma failed_status_query_no_rows (e : option string) (id : string) :
  statusMap_of (rows_of (Fulfilled {| data := None; error := e |})) !! id = None.
Proof. reflexivity. Qed.

(** C7: when the query on [rate_limit_configs] returns an error, and when
    anything is thrown while loading (a rejected query, or a configuration
    without a provider string met after others were already processed), the
    function returns null and not the structure built so far. *)
Theorem load_failure_returns_null
    (configsQuery : settled (Response (list Conf.t)))
    (statusQuery : settled (Response (list Status.t))) :
  (exists result e, configsQuery = Fulfilled result /\ error result = Some e) \/
  (exists e, load_try configsQuery statusQuery = Throw e) \/
  configsQuery = Rejected \/ statusQuery = Rejected \/
  (exists conf, In conf (rows_of configsQuery) /\ forall name, Conf.provider conf <> val name) ->
  loadRateLimitsConfig configsQuery statusQuery = None.
Proof.
  unfold loadRateLimitsConfig, load_try.
  intros [[result [e [-> He]]]|[[e He]|[->|[->|[conf [Hin Hbad]]]]]].
  - destruct statusQuery; simpl; [|reflexivity].
    unfold load_body. now rewrite He.
  - unfold load_try in He. now rewrite He.
  - reflexivity.
  - now destruct configsQuery.
  - destruct configsQuery as [cr|]; [|destruct Hin].
    destruct statusQuery as [sr|]; [|reflexivity]. simpl.
    unfold load_body. destruct (error cr); [reflexivity|].
    simpl in Hin. destruct (data cr) as [configs|]; [|destruct Hin].
    destruct (forEach_throws (statusMap_of (rows_of (Fulfilled sr))) configs ∅ conf Hin Hbad)
      as [e He].
    simpl in He. now rewrite He.
Qed.

Lemma load_failure_returns_null_witness :
  loadRateLimitsConfig
    (Fulfilled {| data := None; error := Some "permission denied for table rate_limit_configs"%string |})
    (ok sample_statuses) = None
  /\ loadRateLimitsConfig
       (ok (sample_conf "c1" "OpenAI" (val 100000) null
            :: {| Conf.id := "c9"; Conf.provider := null; Conf.tier_name := null;
                  Conf.model_pattern := null; Conf.token_limit := null;
                  Conf.request_limit := val 10; Conf.reset_strategy := null;
                  Conf.window_minutes := null |} :: nil))
       (ok sample_statuses) = None.
Proof.
  split.
  - apply load_failure_returns_null. left. eexists _, _. split; reflexivity.
  - apply load_failure_returns_null. do 4 right. eexists. split.
    + right. left. reflexivity.
    + discriminate.
Defined.

End LoadClaims.

(** ** The rows saveConfig sends *)






(** ** The store after resetProviderLimits *)

Section ResetFacts.

Variable now : string.

Lemma reset_upserts_map (configs : list Conf.t) :
  reset_upserts now (Some configs) = List.map (reset_payload now) configs.
Proof. now destruct configs. Qed.

Lemma latest_absent {A : Type} (f : Conf.t -> maybe A) (k : string) (configs : list Conf.t) :
  forall old, has_config k configs = false -> latest f k configs old = old.
Proof.
  induction configs as [|c rest IH]; intros old H; [reflexivity|].
  simpl in H. apply orb_false_iff in H. destruct H as [H1 H2].
  unfold latest. simpl. rewrite H1. now apply IH.
Qed.

Lemma latest_constant_or_identity {A : Type} (f : Conf.t -> maybe A) (k : string)
    (configs : list Conf.t) :
  forall old, latest f k configs old = old \/
              forall other, latest f k configs other = latest f k configs old.
Proof.
  induction configs as [|c rest IH]; intros old; [now left|].
  unfold latest. simpl. fold (latest f k rest).
  destruct (String.eqb (Conf.id c) k); [|apply IH].
  destruct (f c) as [| |v]; simpl; [apply IH | right; reflexivity | right; reflexivity].
Qed.

Lemma latest_idempotent {A : Type} (f : Conf.t -> maybe A) (k : string)
    (configs : list Conf.t) (old : maybe A) :
  latest f k configs (latest f k configs old) = latest f k configs old.
Proof.
  destruct (latest_constant_or_identity f k configs old) as [E|E].
  - now rewrite !E.
  - apply E.
Qed.

Lemma latest_unique {A : Type} (f : Conf.t -> maybe A) (configs : list Conf.t) :
  forall (conf : Conf.t) (old : maybe A),
  NoDup (List.map Conf.id configs) -> In conf configs ->
  latest f (Conf.id conf) configs old = column (f conf) old.
Proof.
  induction configs as [|c rest IH]; intros conf old Hnd Hin; [destruct Hin|].
  simpl in Hnd. apply NoDup_cons in Hnd. destruct Hnd as [Hc Hnd].
  unfold latest. simpl. fold (latest f (Conf.id conf) rest).
  destruct Hin as [->|Hin].
  - rewrite String.eqb_refl. apply latest_absent.
    unfold has_config. apply not_true_is_false. intros H. apply existsb_exists in H.
    destruct H as [c' [H1 H2]]. apply String.eqb_eq in H2. apply Hc.
    rewrite <- H2. apply list_elem_of_In. now apply in_map.
  - destruct (String.eqb (Conf.id c) (Conf.id conf)) eqn:E; [|now apply IH].
    apply String.eqb_eq in E. exfalso. apply Hc. rewrite E.
    apply list_elem_of_In. now apply in_map.
Qed.

(** The row of the table under [k] once all the upserts were applied. *)
Lemma reset_fold_lookup (configs : list Conf.t) :
  forall (table : gmap string Status.t) (k : string),
  fold_left upsert_status (List.map (reset_payload now) configs) table !! k
  = if has_config k configs
    then Some {| Status.config_id := k;
                 Status.remaining_tokens :=
                   latest Conf.token_limit k configs
                     (opt_field Status.remaining_tokens (table !! k));
                 Status.remaining_requests :=
                   latest Conf.request_limit k configs
                     (opt_field Status.remaining_requests (table !! k));
                 Status.window_start := val now;
                 Status.next_reset := null;
                 Status.last_updated := val now;
                 Status.reset_anchor_timestamp := anchor_of (table !! k) |}
    else table !! k.
Proof.
  induction configs as [|c rest IH]; intros table k; [reflexivity|].
  simpl. rewrite IH. unfold upsert_status at 1 2 3 4. simpl StatusUpsert.config_id.
  unfold latest. simpl fold_left.
  fold (latest Conf.token_limit k rest). fold (latest Conf.request_limit k rest).
  destruct (String.eqb (Conf.id c) k) eqn:E.
  - apply String.eqb_eq in E. subst k. rewrite lookup_insert_eq. simpl.
    destruct (has_config (Conf.id c) rest) eqn:H; [reflexivity|].
    pose proof (fun f old => @latest_absent Q f _ _ old H) as L.
    unfold latest in L. now rewrite !L.
  - assert (N : Conf.id c <> k) by (intros C; apply String.eqb_eq in C; congruence).
    rewrite lookup_insert_ne by assumption. reflexivity.
Qed.

Lemma reset_lookup (providerName : string) (db : Database) (k : string) :
  let configs := select_ilike_provider db providerName in
  let table := rate_limit_status db in
  rate_limit_status (resetProviderLimits now providerName db) !! k
  = if has_config k configs
    then Some {| Status.config_id := k;
                 Status.remaining_tokens :=
                   latest Conf.token_limit k configs
                     (opt_field Status.remaining_tokens (table !! k));
                 Status.remaining_requests :=
                   latest Conf.request_limit k configs
                     (opt_field Status.remaining_requests (table !! k));
                 Status.window_start := val now;
                 Status.next_reset := null;
                 Status.last_updated := val now;
                 Status.reset_anchor_timestamp := anchor_of (table !! k) |}
    else table !! k.
Proof.
  intros configs table. unfold resetProviderLimits. cbn [rate_limit_status].
  rewrite reset_upserts_map. apply reset_fold_lookup.
Qed.

Lemma select_after_reset (providerName name' : string) (db : Database) :
  select_ilike_provider (resetProviderLimits now providerName db) name'
  = select_ilike_provider db name'.
Proof. reflexivity. Qed.

Lemma has_config_In (conf : Conf.t) (configs : list Conf.t) :
  In conf configs -> has_config (Conf.id conf) configs = true.
Proof.
  intros H. apply existsb_exists. exists conf. split; [assumption | apply String.eqb_refl].
Qed.

Lemma select_In (db : Database) (providerName p : string) (conf : Conf.t) :
  In conf (rate_limit_configs db) -> Conf.provider conf = val p ->
  ilike providerName p = true ->
  In conf (select_ilike_provider db providerName).
Proof.
  intros Hin Hp Hm. apply filter_In. split; [assumption|]. now rewrite Hp.
Qed.

End ResetFacts.

(** C3: run twice in a row at the same time [now], the reset leaves the
    store as one run leaves it, and both runs send the same records. *)
Theorem reset_idempotent (now providerName : string) (db : Database) :
  let once := resetProviderLimits now providerName db in
  resetProviderLimits now providerName once = once /\
  reset_upserts now (Some (select_ilike_provider once providerName))
  = reset_upserts now (Some (select_ilike_provider db providerName)).
Proof.
  intros once. split; [|reflexivity].
  assert (E : rate_limit_status (resetProviderLimits now providerName once)
              = rate_limit_status once).
  { apply map_eq. intros k. rewrite reset_lookup.
    unfold once at 1. rewrite select_after_reset.
    unfold once. rewrite !reset_lookup.
    destruct (has_config k (select_ilike_provider db providerName)); [|reflexivity].
    simpl. now rewrite !latest_idempotent. }
  unfold resetProviderLimits in *. simpl in *. now rewrite E.
Qed.

Lemma reset_idempotent_witness :
  resetProviderLimits sample_now "openai" (resetProviderLimits sample_now "openai" sample_db)
  = resetProviderLimits sample_now "openai" sample_db.
Proof. apply reset_idempotent. Defined.

Lemma column_defined {A : Type} (sent old : maybe A) : sent <> undefined -> column sent old = sent.
Proof. now destruct sent. Qed.

(** C1: for every configuration whose provider matches [providerName], the
    reset sends a status record with the remaining tokens and requests equal
    to the two limits of the configuration, [window_start] equal to [now] and
    [next_reset] null; with ids unique among the selected rows and both limit
    columns present in them, this is what the store then holds for it. *)
Theorem reset_writes_full_limits (now providerName : string) (db : Database)
    (conf : Conf.t) (p : string) :
  In conf (rate_limit_configs db) ->
  Conf.provider conf = val p -> ilike providerName p = true ->
  (exists w,
     In w (reset_upserts now (Some (select_ilike_provider db providerName))) /\
     StatusUpsert.config_id w = Conf.id conf /\
     StatusUpsert.remaining_tokens w = Conf.token_limit conf /\
     StatusUpsert.remaining_requests w = Conf.request_limit conf /\
     StatusUpsert.window_start w = now /\
     StatusUpsert.next_reset w = null) /\
  (NoDup (List.map Conf.id (select_ilike_provider db providerName)) ->
   Conf.token_limit conf <> undefined -> Conf.request_limit conf <> undefined ->
   exists row,
     rate_limit_status (resetProviderLimits now providerName db) !! Conf.id conf = Some row /\
     Status.remaining_tokens row = Conf.token_limit conf /\
     Status.remaining_requests row = Conf.request_limit conf /\
     Status.window_start row = val now /\
     Status.next_reset row = null).
Proof.
  intros Hin Hp Hm. pose proof (select_In _ _ _ _ Hin Hp Hm) as Hsel. split.
  - exists (reset_payload now conf). split; [|now repeat split].
    rewrite reset_upserts_map. now apply in_map.
  - intros Hnd Ht Hr. rewrite reset_lookup, has_config_In by assumption.
    eexists. split; [reflexivity|]. simpl.
    rewrite !latest_unique, !column_defined by assumption. now repeat split.
Qed.

Lemma reset_writes_full_limits_witness :
  exists row,
    rate_limit_status (resetProviderLimits sample_now "openai" sample_db) !! "c1"%string
    = Some row /\
    Status.remaining_tokens row = val 100000%Q /\
    Status.remaining_requests row = null /\
    Status.window_start row = val sample_now /\
    Status.next_reset row = null.
Proof.
  destruct (reset_writes_full_limits sample_now "openai" sample_db
              (sample_conf "c1" "OpenAI" (val 100000%Q) null) "OpenAI")
    as [_ H].
  - simpl. auto.
  - reflexivity.
  - reflexivity.
  - apply H.
    + apply (bool_decide_unpack _). vm_compute. exact I.
    + discriminate.
    + discriminate.
Defined.

(** C4, as the code has it: for every configuration whose provider
    matches, the record sent sets [last_updated] to [now] and names no
    [reset_anchor_timestamp]; the stored row gets [last_updated] equal to
    [now] and keeps the anchor it had, null for a row the reset creates. *)
Theorem reset_keeps_anchor (now providerName : string) (db : Database)
    (conf : Conf.t) (p : string) :
  In conf (rate_limit_configs db) ->
  Conf.provider conf = val p -> ilike providerName p = true ->
  (exists w,
     In w (reset_upserts now (Some (select_ilike_provider db providerName))) /\
     StatusUpsert.config_id w = Conf.id conf /\
     StatusUpsert.last_updated w = now) /\
  exists row,
    rate_limit_status (resetProviderLimits now providerName db) !! Conf.id conf = Some row /\
    Status.last_updated row = val now /\
    Status.reset_anchor_timestamp row = anchor_of (rate_limit_status db !! Conf.id conf).
Proof.
  intros Hin Hp Hm. pose proof (select_In _ _ _ _ Hin Hp Hm) as Hsel. split.
  - exists (reset_payload now conf). split; [|now repeat split].
    rewrite reset_upserts_map. now apply in_map.
  - rewrite reset_lookup, has_config_In by assumption.
    eexists. split; [reflexivity|]. now split.
Qed.

Lemma reset_keeps_anchor_witness :
  exists row,
    rate_limit_status (resetProviderLimits sample_now "openai" sample_db) !! "c1"%string
    = Some row /\
    Status.last_updated row = val sample_now /\
    Status.reset_anchor_timestamp row = null.
Proof.
  destruct (reset_keeps_anchor sample_now "openai" sample_db
              (sample_conf "c1" "OpenAI" (val 100000%Q) null) "OpenAI")
    as [_ H].
  - simpl. auto.
  - reflexivity.
  - reflexivity.
  - exact H.
Defined.

(** C4 as stated fails: after a reset of the matching provider the stored
    row has [window_start] equal to [now] but its anchor is still null. *)
Lemma reset_does_not_set_anchor :
  exists row,
    In (sample_conf "c1" "OpenAI" (val 100000%Q) null) (rate_limit_configs sample_db) /\
    ilike "openai" "OpenAI" = true /\
    rate_limit_status (resetProviderLimits sample_now "openai" sample_db) !! "c1"%string
    = Some row /\
    Status.window_start row = val sample_now /\
    Status.reset_anchor_timestamp row = null /\
    Status.reset_anchor_timestamp row <> val sample_now.
Proof.
  eexists. split; [simpl; auto|]. split; [reflexivity|].
  split; [reflexivity|]. split; [reflexivity|]. split; [reflexivity|]. discriminate.
Qed.

(** ** The window length through save and load *)

(** C10, as the code has it: for a whole number of hours [h] above zero with
    [h * 60] at most [2^53], the row saved holds [window_minutes] equal to
    [h * 60], and a configuration holding that value is loaded with
    [windowHours] equal to [h]. *)
Theorem window_hours_round_trip (providerKey : string) (limit : UiLimit.t) (h : Z)
    (statusMap : gmap string Status.t) (conf : Conf.t) :
  UiLimit.windowHours limit = VNum (Fin (inject_Z h)) ->
  (0 < h)%Z -> (h * 60 <= 2 ^ 53)%Z ->
  Row.window_minutes (row_of providerKey limit) = Fin (inject_Z (h * 60)) /\
  (Conf.window_minutes conf = val (inject_Z (h * 60)) ->
   Limit.windowHours (limit_of statusMap conf) = Fin (inject_Z h)).
Proof.
  intros Hw Hh Hb. split.
  - unfold row_of. simpl. rewrite Hw. now apply window_minutes_of_hours.
  - intros Hc. unfold limit_of. simpl. rewrite Hc.
    apply windowHours_of_minutes; [lia | reflexivity].
Qed.

Lemma window_hours_round_trip_witness :
  Row.window_minutes (row_of "openai" (sample_limit (VStr "c1") (VStr "250000") "tokens" 5))
  = Fin 300 /\
  Limit.windowHours (limit_of ∅ (conf_with_window 300)) = Fin 5.
Proof.
  destruct (window_hours_round_trip "openai"
              (sample_limit (VStr "c1") (VStr "250000") "tokens" 5) 5 ∅
              (conf_with_window 300))
    as [H1 H2].
  - reflexivity.
  - lia.
  - lia.
  - split; [exact H1 | apply H2; reflexivity].
Defined.

(** C10 as stated fails for a large whole number of hours: sixty times
    [long_hours] is rounded to a multiple of 64 when the row is built, and
    the hours loaded back from it are the next integer. *)
Lemma long_window_does_not_round_trip :
  UiLimit.windowHours long_limit = VNum (Fin (inject_Z long_hours)) /\
  (0 < long_hours)%Z /\
  Row.window_minutes (row_of "openai" long_limit) = Fin (inject_Z (long_hours * 60 + 32)) /\
  Limit.windowHours (limit_of ∅ (conf_with_window (inject_Z (long_hours * 60 + 32))))
  = Fin (inject_Z (long_hours + 1)) /\
  Limit.windowHours (limit_of ∅ (conf_with_window (inject_Z (long_hours * 60 + 32))))
  <> Fin (inject_Z long_hours).
Proof.
  split; [reflexivity|]. split; [reflexivity|].
  split; [vm_compute; reflexivity|]. split; [vm_compute; reflexivity|].
  vm_compute. discriminate.
Qed.

(** ** The primitives on sample values *)

Module Examples.

Import Binary64.
Local Open Scope string_scope.

Example b64_one_tenth :
  b64 (1 # 10) = Fin (3602879701896397 # 36028797018963968).
Proof. vm_compute. reflexivity. Qed.

(** [29 / 200 * 100] is 14.499999999999998, and rounds to 14. *)
Example percentage_29_of_200 :
  mul (div (Fin 29) (Fin 200)) (Fin 100) = Fin (8162774324609023 # 562949953421312)
  /\ percentage_of 29 200 = Fin 14.
Proof. split; vm_compute; reflexivity. Qed.

Example b64_overflow :
  mul (Fin (10 ^ 308)) (Fin 60) = PInf /\ StringToNumber "-1e309" = NInf.
Proof. split; vm_compute; reflexivity. Qed.

Example Number_toString_samples :
  List.map (fun s => Number_toString (StringToNumber s))
    ("600" :: "0.1" :: "14.499999999999998" :: "1e21" :: "123456789012345680000"
     :: "1152921504606846976" :: "0.000001" :: "0.0000001" :: "-5" :: "5e-324"
     :: "1.7976931348623157e308" :: " 42 " :: "0x1F" :: "abc" :: "" :: nil)
  = "600" :: "0.1" :: "14.499999999999998" :: "1e+21" :: "123456789012345680000"
    :: "1152921504606847000" :: "0.000001" :: "1e-7" :: "-5" :: "5e-324"
    :: "1.7976931348623157e+308" :: "42" :: "31" :: "NaN" :: "0" :: nil.
Proof. vm_compute. reflexivity. Qed.

Example toFixed_samples :
  List.map (fun s => toFixed (StringToNumber s) 1)
    ("0" :: "0.6" :: "1.25" :: "1.35" :: "-0.04" :: "999.95" :: "1e21" :: nil)
  = "0.0" :: "0.6" :: "1.3" :: "1.4" :: "-0.0" :: "1000.0" :: "1e+21" :: nil
  /\ List.map (fun s => toFixed (StringToNumber s) 0)
       ("0.5" :: "2.5" :: "-0.4" :: "100000" :: nil)
     = "1" :: "3" :: "-0" :: "100000" :: nil.
Proof. split; vm_compute; reflexivity. Qed.

Example parseInt_samples :
  List.map parseInt
    (VStr "250000" :: VStr "  -12px" :: VStr "0x1f" :: VStr "3.9" :: VNum (Fin 1000)
     :: VNum (Fin (7 # 2)) :: nil)
  = List.map (fun z => Fin (inject_Z z)) (250000 :: -12 :: 31 :: 3 :: 1000 :: 3 :: nil)%Z
  /\ List.map parseInt (VStr "abc" :: VStr "" :: VUndefined :: VNull :: VNum NaN :: nil)
     = NaN :: NaN :: NaN :: NaN :: NaN :: nil.
Proof. split; vm_compute; reflexivity. Qed.

Example window_minutes_of_samples :
  List.map window_minutes_of
    (VNum (Fin 5) :: VNum (Fin 0) :: VUndefined :: VStr "24" :: VStr "" :: VBool true :: nil)
  = List.map (fun z => Fin (inject_Z z)) (300 :: 60 :: 60 :: 1440 :: 60 :: 60 :: nil)%Z
  /\ window_minutes_of (VStr "soon") = NaN.
Proof. split; vm_compute; reflexivity. Qed.

Example provider_of_key_samples :
  List.map provider_of_key ("openai" :: "chatgpt" :: "claude" :: "gemini" :: "mistral" :: "" :: nil)
  = "OpenAI" :: "OpenAI" :: "Anthropic" :: "Google" :: "Mistral" :: "" :: nil.
Proof. reflexivity. Qed.

Example ilike_samples :
  List.map (ilike "openai") ("OpenAI" :: "openai" :: "OpenAI " :: "Anthropic" :: nil)
  = true :: true :: false :: false :: nil
  /\ List.map (ilike "%a_") ("OpenAI" :: "Data" :: "a" :: nil) = true :: false :: false :: nil.
Proof. split; reflexivity. Qed.

(** A provider named like a property of [Object.prototype] makes the load
    throw, and the function return null. *)
Example constructor_provider_returns_null :
  loadRateLimitsConfig
    (ok (sample_conf "c1" "OpenAI" (val 100000%Q) null
         :: sample_conf "c5" "Constructor" null (val 10%Q) :: nil))
    (ok nil) = None.
Proof. reflexivity. Qed.

Example saveConfig_sample :
  exists rows,
    saveConfig (Some sample_newConfig) sample_currentRows
    = Delete ("c3" :: nil) :: Upsert rows :: nil
    /\ List.map Row.provider rows = "OpenAI" :: "OpenAI" :: "Anthropic" :: nil
    /\ List.map Row.id rows = Some (VStr "c1") :: None :: Some (VStr "c2") :: nil
    /\ List.map Row.request_limit rows = null :: val (Fin 1000) :: val NaN :: nil.
Proof. eexists. repeat split. Qed.

End Examples.

(** ** More on loadRateLimitsConfig *)

Section LoadGrouping.

Variable statusMap : gmap string Status.t.

Lemma add_limits_push (p : Provider.t) (e : Limit.t) (ls : list Limit.t) :
  add_limits (push e p) ls = add_limits p (e :: ls).
Proof. unfold add_limits, push. simpl. now rewrite <- app_assoc. Qed.

Lemma add_limits_nil (p : Provider.t) : add_limits p nil = p.
Proof. destruct p. unfold add_limits. simpl. now rewrite app_nil_r. Qed.

Lemma grouped_cons_same (k : string) (conf : Conf.t) (rest : list Conf.t) (name : string) :
  Conf.provider conf = val name -> toLowerCase name = k ->
  grouped k (conf :: rest) = conf :: grouped k rest.
Proof.
  intros Hp Hk. unfold grouped, key_of. simpl. rewrite Hp, Hk, String.eqb_refl. reflexivity.
Qed.

Lemma grouped_cons_other (k : string) (conf : Conf.t) (rest : list Conf.t) (name : string) :
  Conf.provider conf = val name -> toLowerCase name <> k ->
  grouped k (conf :: rest) = grouped k rest.
Proof.
  intros Hp Hk. unfold grouped, key_of. simpl. rewrite Hp.
  destruct (String.eqb (toLowerCase name) k) eqn:E; [|reflexivity].
  apply String.eqb_eq in E. contradiction.
Qed.

(** What the loop leaves under a key, from what was there before. *)
Lemma forEach_lookup (configs : list Conf.t) :
  forall (ps ps' : gmap string Provider.t) (k : string),
  forEach statusMap ps configs = Normal ps' ->
  ps' !! k = match ps !! k with
             | Some p => Some (add_limits p (List.map (limit_of statusMap) (grouped k configs)))
             | None => provider_for statusMap k configs
             end.
Proof.
  induction configs as [|conf rest IH]; intros ps ps' k H; simpl in H.
  - injection H as <-. destruct (ps !! k) as [p|]; [|reflexivity].
    simpl. now rewrite add_limits_nil.
  - destruct (forEach_body statusMap ps conf) as [ps1|] eqn:B; [|discriminate].
    simpl in H. rewrite (IH _ _ k H). clear IH H.
    unfold forEach_body in B.
    destruct (Conf.provider conf) as [| |name] eqn:Hp; try discriminate.
    destruct (decide (toLowerCase name = k)) as [E|N].
    + unfold provider_for. rewrite (grouped_cons_same k conf rest name Hp E).
      rewrite <- E. destruct (ps !! toLowerCase name) as [p|].
      * injection B as <-. rewrite lookup_insert_eq. simpl. now rewrite add_limits_push.
      * destruct (inherited (toLowerCase name)); [discriminate|].
        injection B as <-. rewrite lookup_insert_eq. rewrite add_limits_push.
        unfold opened_by. now rewrite Hp.
    + unfold provider_for. rewrite (grouped_cons_other k conf rest name Hp N).
      assert (L : ps1 !! k = ps !! k).
      { destruct (ps !! toLowerCase name) as [p|].
        - injection B as <-. now rewrite lookup_insert_ne.
        - destruct (inherited (toLowerCase name)); [discriminate|].
          injection B as <-. now rewrite lookup_insert_ne. }
      now rewrite L.
Qed.

(** The loop never files anything under a name of [Object.prototype], and
    it ends normally only on well-formed configurations. *)
Lemma forEach_well_formed (configs : list Conf.t) :
  forall (ps ps' : gmap string Provider.t),
  (forall k, inherited k = true -> ps !! k = None) ->
  forEach statusMap ps configs = Normal ps' ->
  Forall well_formed configs.
Proof.
  induction configs as [|conf rest IH]; intros ps ps' Hps H; [constructor|].
  simpl in H. destruct (forEach_body statusMap ps conf) as [ps1|] eqn:B; [|discriminate].
  simpl in H. unfold forEach_body in B.
  destruct (Conf.provider conf) as [| |name] eqn:Hp; try discriminate.
  destruct (inherited (toLowerCase name)) eqn:Hi.
  { rewrite (Hps _ Hi) in B. discriminate. }
  constructor.
  - exists name. auto.
  - apply (IH ps1 ps'); [|exact H].
    intros k Hk. assert (N : toLowerCase name <> k) by congruence.
    destruct (ps !! toLowerCase name) as [p|]; injection B as <-;
      rewrite lookup_insert_ne by assumption; now apply Hps.
Qed.

End LoadGrouping.

Lemma load_lookup (configsQuery : settled (Response (list Conf.t)))
    (statusQuery : settled (Response (list Status.t))) (ui : UiConfig) (k : string) :
  loadRateLimitsConfig configsQuery statusQuery = Some ui ->
  providers ui !! k
  = provider_for (statusMap_of (rows_of statusQuery)) k (rows_of configsQuery).
Proof.
  intros H. apply load_some in H.
  rewrite (forEach_lookup _ _ _ _ k H). now rewrite lookup_empty.
Qed.



(** X2: the function returns a structure exactly when both queries are
    answered, the first without error and with rows, and every row has a
    provider string whose key is not a property name of [Object.prototype];
    in every other case it returns null. *)
Theorem load_returns_iff (configsQuery : settled (Response (list Conf.t)))
    (statusQuery : settled (Response (list Status.t))) :
  loadRateLimitsConfig configsQuery statusQuery <> None <->
  exists configsResult statusResult configs,
    configsQuery = Fulfilled configsResult /\ statusQuery = Fulfilled statusResult /\
    error configsResult = None /\ data configsResult = Some configs /\
    Forall well_formed configs.
Proof.
  split.
  - intros H. destruct (loadRateLimitsConfig configsQuery statusQuery) as [ui|] eqn:L;
      [clear H | contradiction].
    pose proof (load_some _ _ _ L) as F.
    unfold loadRateLimitsConfig, load_try, await_all, load_body in L.
    destruct configsQuery as [cr|], statusQuery as [sr|]; simpl in L; try discriminate.
    destruct (error cr) eqn:He; [discriminate|].
    destruct (data cr) as [configs|] eqn:Hd; [|discriminate].
    exists cr, sr, configs. repeat split; try assumption.
    simpl in F. rewrite Hd in F.
    refine (forEach_well_formed _ configs ∅ (providers ui) _ F).
    intros k _. apply lookup_empty.
  - intros [cr [sr [configs [-> [-> [He [Hd Hw]]]]]]].
    destruct (load_returns cr sr configs He Hd Hw) as [ui ->]. discriminate.
Qed.

Lemma load_returns_iff_witness :
  loadRateLimitsConfig (ok sample_configs) (ok sample_statuses) <> None
  /\ ~ Forall well_formed (sample_conf "c5" "Constructor" null (val 10%Q) :: nil).
Proof.
  split.
  - apply load_returns_iff. eexists _, _, _. repeat split.
    repeat constructor; eexists; split; reflexivity.
  - intros H.
    assert (N : loadRateLimitsConfig
                  (ok (sample_conf "c5" "Constructor" null (val 10%Q) :: nil)) (ok nil)
                <> None).
    { apply load_returns_iff. eexists _, _, _. repeat split. exact H. }
    apply N. reflexivity.
Defined.

Section LoadArithmetic.

Local Open Scope Q_scope.

Lemma quota_percentage_bounded (status : option Status.t) (conf : Conf.t) :
  exists z, percentage (quota_of status conf) = Fin (inject_Z z) /\ (0 <= z <= 100)%Z.
Proof.
  destruct (limit_in_effect conf) as [l|] eqn:E.
  - destruct (quota_of_limited status conf l E) as [_ ->].
    apply percentage_of_bounded.
    unfold limit_in_effect in E.
    destruct (truthy_num (Conf.token_limit conf)) as [t|] eqn:T.
    + injection E as ->. now apply truthy_num_val in T.
    + now apply truthy_num_val in E.
  - rewrite (quota_of_unlimited status conf E). exists 100%Z. split; [reflexivity | lia].
Qed.

Lemma Qle_bool_inject_Z (a b : Z) : Qle_bool (inject_Z a) (inject_Z b) = (a <=? b)%Z.
Proof. unfold Qle_bool. simpl. now rewrite !Z.mul_1_r. Qed.

Lemma provider_for_limits (statusMap : gmap string Status.t) (k : string)
    (configs : list Conf.t) (p : Provider.t) (e : Limit.t) :
  provider_for statusMap k configs = Some p -> In e (Provider.limits p) ->
  exists conf, In conf configs /\ key_of conf = Some k /\ e = limit_of statusMap conf.
Proof.
  unfold provider_for. intros H Hin.
  destruct (grouped k configs) as [|first others] eqn:G; [discriminate|].
  injection H as <-.
  assert (N : Provider.limits (opened_by first) = nil).
  { unfold opened_by. now destruct (Conf.provider first). }
  unfold add_limits in Hin. cbn [Provider.limits] in Hin. rewrite N in Hin.
  change (In e (List.map (limit_of statusMap) (first :: others))) in Hin.
  apply in_map_iff in Hin. destruct Hin as [conf [<- Hc]].
  rewrite <- G in Hc. apply filter_In in Hc. destruct Hc as [Hc Hk].
  exists conf. split; [assumption|]. split; [|reflexivity].
  destruct (key_of conf) as [k'|]; [|discriminate].
  apply String.eqb_eq in Hk. now subst.
Qed.

(** X3: every limit in the structure returned, whatever the configuration
    and the status rows hold, carries a percentage that is an integer from 0
    to 100, and [getQuotaStatusColor] gives it green from 50 up, orange from
    20 up and red below, never the grey kept for a missing percentage. *)
Theorem reported_percentage_and_colour
    (configsQuery : settled (Response (list Conf.t)))
    (statusQuery : settled (Response (list Status.t))) (ui : UiConfig)
    (k : string) (p : Provider.t) (e : Limit.t) :
  loadRateLimitsConfig configsQuery statusQuery = Some ui ->
  providers ui !! k = Some p -> In e (Provider.limits p) ->
  exists z,
    BackendStatus.percentage (Limit.backendStatus e) = Fin (inject_Z z) /\
    (0 <= z <= 100)%Z /\
    getQuotaStatusColor (val (BackendStatus.percentage (Limit.backendStatus e)))
    = (if (50 <=? z)%Z then "#10b981" else if (20 <=? z)%Z then "#f59e0b" else "#ef4444")%string.
Proof.
  intros Hload Hp He.
  rewrite (load_lookup _ _ _ k Hload) in Hp.
  destruct (provider_for_limits _ _ _ _ _ Hp He) as [conf [_ [_ ->]]].
  unfold limit_of. cbn [Limit.backendStatus BackendStatus.percentage].
  destruct (quota_percentage_bounded
              (statusMap_of (rows_of statusQuery) !! Conf.id conf) conf) as [z [-> Hz]].
  exists z. split; [reflexivity|]. split; [assumption|].
  cbv [getQuotaStatusColor num_ge].
  change (Qle_bool 50 (inject_Z z)) with (Qle_bool (inject_Z 50) (inject_Z z)).
  change (Qle_bool 20 (inject_Z z)) with (Qle_bool (inject_Z 20) (inject_Z z)).
  now rewrite !Qle_bool_inject_Z.
Qed.

Lemma reported_percentage_and_colour_witness :
  exists ui p e,
    loadRateLimitsConfig (ok sample_configs) (ok sample_statuses) = Some ui /\
    providers ui !! "anthropic"%string = Some p /\ In e (Provider.limits p) /\
    BackendStatus.percentage (Limit.backendStatus e) = Fin 40 /\
    getQuotaStatusColor (val (BackendStatus.percentage (Limit.backendStatus e)))
    = "#f59e0b"%string.
Proof.
  eexists.
  assert (L : loadRateLimitsConfig (ok sample_configs) (ok sample_statuses) = Some _)
    by reflexivity.
  eexists. eexists. split; [exact L|]. split; [reflexivity|].
  split; [left; reflexivity|].
  destruct (reported_percentage_and_colour _ _ _ "anthropic"%string _ _ L eq_refl
              (or_introl eq_refl)) as [z [Hz [_ Hc]]].
  split; [reflexivity|]. rewrite Hc.
  assert (z = 40%Z) by (vm_compute in Hz; congruence). now subst.
Defined.

Lemma safeRemaining_increasing (r1 r2 limit : Q) :
  0 < limit -> r1 <= r2 ->
  exists s1 s2,
    safeRemaining r1 limit = Fin s1 /\ safeRemaining r2 limit = Fin s2 /\
    0 <= s1 /\ s1 <= s2 /\ s2 <= limit.
Proof.
  intros Hl Hr. unfold safeRemaining, Math_min, Math_max.
  destruct (Qle_bool r1 limit) eqn:A1; destruct (Qle_bool r2 limit) eqn:A2;
    try apply Qle_bool_iff in A1; try apply Qle_bool_iff in A2;
    try apply Qle_bool_false in A1; try apply Qle_bool_false in A2;
    repeat match goal with
    | |- context [Qle_bool 0 ?x] =>
        let T := fresh "T" in
        destruct (Qle_bool 0 x) eqn:T;
        [apply Qle_bool_iff in T | apply Qle_bool_false in T]
    end;
    eexists _, _; (split; [reflexivity|]); (split; [reflexivity|]); repeat split; lra.
Qed.

Lemma scaled_fraction (s limit : Q) :
  0 < limit -> 0 <= s <= limit ->
  mul (div (Fin s) (Fin limit)) (Fin 100)
  = Fin (round64 (round64 (s / limit) * 100))
  /\ 0 <= round64 (s / limit) <= 1.
Proof.
  intros Hl Hs. unfold div. rewrite Qeq_bool_pos by assumption.
  destruct (b64_in_range (s / limit) 1) as [E1 R1]; [lia | |].
  { pose proof (ratio_bounds s limit Hl Hs). unfold inject_Z. lra. }
  rewrite E1. unfold mul.
  assert (P : 0 <= round64 (s / limit)).
  { apply round64_nonneg. now apply ratio_bounds. }
  unfold inject_Z in R1.
  destruct (b64_in_range (round64 (s / limit) * 100) 100) as [E2 _]; [lia | |].
  { unfold inject_Z. lra. }
  rewrite E2. split; [reflexivity | lra].
Qed.

(** X4: for a positive limit the percentage never decreases when the
    remaining amount grows: rounding twice in binary64 and once to an integer
    keeps the order. *)
Theorem percentage_increasing (r1 r2 limit : Q) :
  0 < limit -> r1 <= r2 ->
  exists z1 z2,
    percentage_of r1 limit = Fin (inject_Z z1) /\
    percentage_of r2 limit = Fin (inject_Z z2) /\
    (z1 <= z2)%Z.
Proof.
  intros Hl Hr. unfold percentage_of.
  destruct (safeRemaining_increasing r1 r2 limit Hl Hr) as [s1 [s2 [-> [-> [H0 [H12 H2]]]]]].
  destruct (scaled_fraction s1 limit Hl) as [-> _]; [lra|].
  destruct (scaled_fraction s2 limit Hl) as [-> _]; [lra|].
  unfold Math_round. eexists _, _. split; [reflexivity|]. split; [reflexivity|].
  apply Qfloor_resp_le.
  assert (round64 (s1 / limit) <= round64 (s2 / limit)).
  { apply round64_le. apply Qmult_le_compat_r; [assumption|].
    apply Qlt_le_weak, Qinv_lt_0_compat, Hl. }
  assert (round64 (round64 (s1 / limit) * 100) <= round64 (round64 (s2 / limit) * 100)).
  { apply round64_le. lra. }
  lra.
Qed.

Lemma percentage_increasing_witness :
  exists z1 z2,
    percentage_of 29 200 = Fin (inject_Z z1) /\
    percentage_of 30 200 = Fin (inject_Z z2) /\ (z1 <= z2)%Z.
Proof. apply percentage_increasing; [reflexivity | discriminate]. Defined.

(** X5: for a positive limit, a remaining amount at or above the limit is
    shown as 100 per cent, and one at or below zero as 0 per cent. *)
Theorem percentage_saturates (remaining limit : Q) :
  0 < limit ->
  (limit <= remaining -> percentage_of remaining limit = Fin 100) /\
  (remaining <= 0 -> percentage_of remaining limit = Fin 0).
Proof.
  intros Hl. split; intros Hr; unfold percentage_of.
  - assert (S : exists s, safeRemaining remaining limit = Fin s /\ s == limit).
    { unfold safeRemaining, Math_min, Math_max.
      destruct (Qle_bool remaining limit) eqn:A;
        [apply Qle_bool_iff in A | apply Qle_bool_false in A].
      - assert (T : Qle_bool 0 remaining = true) by (apply Qle_bool_iff; lra).
        rewrite T. exists remaining. split; [reflexivity | lra].
      - assert (T : Qle_bool 0 limit = true) by (apply Qle_bool_iff; lra).
        rewrite T. exists limit. split; reflexivity. }
    destruct S as [s [-> Es]].
    unfold div. rewrite Qeq_bool_pos by assumption.
    rewrite (b64_exact (s / limit) 1); [| lia |].
    + unfold mul. rewrite (b64_exact (inject_Z 1 * 100) 100); [reflexivity | lia | reflexivity].
    + unfold inject_Z. rewrite Es. field. lra.
  - assert (S : exists s, safeRemaining remaining limit = Fin s /\ s == 0).
    { unfold safeRemaining, Math_min, Math_max.
      assert (A : Qle_bool remaining limit = true) by (apply Qle_bool_iff; lra).
      rewrite A.
      destruct (Qle_bool 0 remaining) eqn:T;
        [apply Qle_bool_iff in T | apply Qle_bool_false in T].
      - exists remaining. split; [reflexivity | lra].
      - exists 0. split; reflexivity. }
    destruct S as [s [-> Es]].
    unfold div. rewrite Qeq_bool_pos by assumption.
    rewrite b64_zero by (rewrite Es; field; lra).
    unfold mul. rewrite b64_zero by ring. reflexivity.
Qed.

Lemma percentage_saturates_witness :
  percentage_of 250000 100000 = Fin 100 /\ percentage_of (-3) 100000 = Fin 0.
Proof.
  split.
  - apply (percentage_saturates 250000 100000); [reflexivity | discriminate].
  - apply (percentage_saturates (-3) 100000); [reflexivity | discriminate].
Defined.

(** X6: for whole-number counts up to [2^53] the used amount in the label is
    exactly the limit less the remaining amount, and 0 instead of a negative
    number when more remains than the limit. *)
Theorem used_of_counts (remaining limit : Z) :
  (0 <= remaining <= 2 ^ 53)%Z -> (0 <= limit <= 2 ^ 53)%Z ->
  used_of (inject_Z remaining) (inject_Z limit)
  = Fin (inject_Z (Z.max 0 (limit - remaining))).
Proof.
  intros Hr Hl. unfold used_of, sub.
  rewrite (b64_exact _ (limit - remaining)); [| lia |].
  - unfold Math_max. change 0 with (inject_Z 0). rewrite Qle_bool_inject_Z.
    destruct (0 <=? limit - remaining)%Z eqn:T.
    + apply Z.leb_le in T. now rewrite Z.max_r by assumption.
    + apply Z.leb_gt in T. now rewrite Z.max_l by lia.
  - unfold Zminus. rewrite inject_Z_plus, inject_Z_opp. reflexivity.
Qed.

Lemma used_of_counts_witness :
  used_of 400 1000 = Fin 600 /\ used_of 1200 1000 = Fin 0.
Proof.
  split.
  - apply (used_of_counts 400 1000); lia.
  - apply (used_of_counts 1200 1000); lia.
Defined.

End LoadArithmetic.

Lemma statusMap_of_lookup (rows : list Status.t) (k : string) :
  statusMap_of rows !! k
  = List.find (fun s => String.eqb (Status.config_id s) k) (rev rows).
Proof.
  induction rows as [|s rows IH] using rev_ind; [reflexivity|].
  unfold statusMap_of in *. rewrite fold_left_app, rev_app_distr. simpl.
  rewrite lookup_insert. destruct (String.eqb (Status.config_id s) k) eqn:E.
  - apply String.eqb_eq in E. now rewrite decide_True by assumption.
  - assert (N : Status.config_id s <> k) by (intros C; apply String.eqb_eq in C; congruence).
    now rewrite decide_False by assumption.
Qed.

(** X7: when several status rows carry the same [config_id], the map built
    from them answers with the last one; an id no row carries has no
    entry. *)
Theorem statusMap_last_row_wins (rows : list Status.t) (k : string) :
  statusMap_of rows !! k
  = List.find (fun s => String.eqb (Status.config_id s) k) (rev rows).
Proof. apply statusMap_of_lookup. Qed.

(** ** More on saveConfig *)

Section SaveFacts.

Lemma limit_fold (key : string) (limits : list UiLimit.t) :
  forall acc : save_acc,
  fold_left (limit_step key) limits acc
  = ((fst acc ++ List.map (row_of key) limits)%list,
     (snd acc ++ kept_ids (List.map (pair key) limits))%list).
Proof.
  induction limits as [|l rest IH]; intros [rows kept]; simpl.
  - now rewrite !app_nil_r.
  - rewrite IH. unfold limit_step. simpl. f_equal.
    + now rewrite <- app_assoc.
    + destruct (isNew l); simpl; [reflexivity | now rewrite <- app_assoc].
Qed.

Lemma providers_forEach_spec (entries : list (string * UiProvider.t)) :
  forall acc : save_acc,
  providers_forEach acc entries
  = match all_limits entries with
    | Some ls => Normal ((fst acc ++ List.map row_of_pair ls)%list,
                         (snd acc ++ kept_ids ls)%list)
    | None => Throw TypeError
    end.
Proof.
  induction entries as [|[key provider] rest IH]; intros [rows kept]; simpl.
  - now rewrite !app_nil_r.
  - unfold provider_step. simpl.
    destruct (UiProvider.limits provider) as [limits|]; [|reflexivity].
    simpl. rewrite IH, limit_fold. simpl.
    destruct (all_limits rest) as [others|]; [|reflexivity].
    unfold kept_ids. rewrite map_app, flat_map_app, map_map, <- !app_assoc. reflexivity.
Qed.

Lemma set_of_In (ids : list string) :
  forall (seen : list string) (id : string),
  In id (set_of seen ids) <-> In id ids /\ ~ In id seen.
Proof.
  induction ids as [|a rest IH]; intros seen id; simpl; [tauto|].
  destruct (existsb (String.eqb a) seen) eqn:E.
  - apply existsb_exists in E. destruct E as [b [Hb E]]. apply String.eqb_eq in E. subst b.
    rewrite IH. split; [tauto|]. intros [[->|H] N]; tauto.
  - assert (Na : ~ In a seen).
    { intros C. apply not_true_iff_false in E. apply E. apply existsb_exists.
      exists a. split; [assumption | apply String.eqb_refl]. }
    simpl. rewrite IH. simpl. split.
    + intros [->|[H N]]; [tauto|]. split; [tauto|]. intros C. apply N. now right.
    + intros [[->|H] N]; [now left|].
      destruct (String.eqb_spec a id) as [->|Ne]; [now left|].
      right. split; [assumption|]. intros [C|C]; [contradiction | tauto].
Qed.

Lemma set_of_NoDup (ids : list string) :
  forall seen : list string, List.NoDup (set_of seen ids).
Proof.
  induction ids as [|a rest IH]; intros seen; simpl; [constructor|].
  destruct (existsb (String.eqb a) seen); [apply IH|].
  constructor; [|apply IH].
  rewrite set_of_In. intros [_ N]. apply N. now left.
Qed.

Lemma has_id_kept (ls : list (string * UiLimit.t)) (id : string) :
  has_id (kept_ids ls) id = true <->
  exists kl, In kl ls /\ isNew (snd kl) = false /\ UiLimit.id (snd kl) = VStr id.
Proof.
  unfold has_id, kept_ids. rewrite existsb_exists. split.
  - intros [v [Hv E]]. apply in_flat_map in Hv. destruct Hv as [kl [Hkl Hv]].
    destruct (isNew (snd kl)) eqn:N; [destruct Hv|].
    destruct Hv as [<-|[]]. exists kl. split; [assumption|]. split; [assumption|].
    destruct (UiLimit.id (snd kl)); try discriminate.
    apply String.eqb_eq in E. now subst.
  - intros [kl [Hkl [N E]]]. exists (VStr id). split.
    + apply in_flat_map. exists kl. split; [assumption|]. rewrite N, E. now left.
    + apply String.eqb_refl.
Qed.

Lemma requests_split (idsToDelete : list string) (upsertData : list Row.t) :
  let requests :=
    ((match idsToDelete with
      | nil => nil
      | _ => Delete idsToDelete :: nil
      end)
     ++ (match upsertData with
         | nil => nil
         | _ => Upsert upsertData :: nil
         end))%list in
  deleted_ids requests = idsToDelete /\ upserted_rows requests = upsertData.
Proof.
  destruct idsToDelete, upsertData; simpl; rewrite ?app_nil_r; split; reflexivity.
Qed.

Lemma saveConfig_spec (config : NewConfig.t) (entries : list (string * UiProvider.t))
    (result : Response (list string)) (ls : list (string * UiLimit.t)) :
  NewConfig.providers config = Some entries -> all_limits entries = Some ls ->
  deleted_ids (saveConfig (Some config) (Fulfilled result))
  = List.filter (fun id => negb (has_id (kept_ids ls) id)) (set_of nil (ids_read result))
  /\ upserted_rows (saveConfig (Some config) (Fulfilled result)) = List.map row_of_pair ls.
Proof.
  intros Hp Ha. unfold saveConfig. rewrite Hp, providers_forEach_spec, Ha. simpl.
  apply requests_split.
Qed.

Lemma deleted_iff (config : NewConfig.t) (entries : list (string * UiProvider.t))
    (result : Response (list string)) (ls : list (string * UiLimit.t)) (id : string) :
  NewConfig.providers config = Some entries -> all_limits entries = Some ls ->
  In id (deleted_ids (saveConfig (Some config) (Fulfilled result))) <->
  In id (ids_read result) /\
  ~ exists kl, In kl ls /\ isNew (snd kl) = false /\ UiLimit.id (snd kl) = VStr id.
Proof.
  intros Hp Ha. destruct (saveConfig_spec config entries result ls Hp Ha) as [-> _].
  rewrite filter_In, set_of_In, negb_true_iff, <- not_true_iff_false, has_id_kept.
  simpl. tauto.
Qed.

Lemma saveConfig_throw (config : NewConfig.t) (entries : list (string * UiProvider.t))
    (result : Response (list string)) :
  NewConfig.providers config = Some entries -> all_limits entries = None ->
  saveConfig (Some config) (Fulfilled result) = nil.
Proof.
  intros Hp Ha. unfold saveConfig. now rewrite Hp, providers_forEach_spec, Ha.
Qed.

End SaveFacts.

(** X8: the upsert carries one row for each limit of the configuration, in
    the order of the providers and of their limits; and when a provider's
    [limits] is not an array nothing at all is sent, neither the rows built
    before it nor a delete. *)
Theorem saveConfig_all_rows_or_nothing (config : NewConfig.t)
    (entries : list (string * UiProvider.t)) (result : Response (list string)) :
  NewConfig.providers config = Some entries ->
  match all_limits entries with
  | Some ls =>
      upserted_rows (saveConfig (Some config) (Fulfilled result)) = List.map row_of_pair ls
  | None => saveConfig (Some config) (Fulfilled result) = nil
  end.
Proof.
  intros Hp. destruct (all_limits entries) as [ls|] eqn:Ha.
  - now apply saveConfig_spec with (entries := entries).
  - now apply saveConfig_throw with (entries := entries).
Qed.

Lemma saveConfig_all_rows_or_nothing_witness :
  List.map Row.id (upserted_rows (saveConfig (Some sample_newConfig) (Fulfilled sample_result)))
  = Some (VStr "c1") :: None :: Some (VStr "c2") :: nil
  /\ saveConfig (Some sample_brokenConfig) (Fulfilled sample_result) = nil.
Proof.
  split.
  - pose proof (saveConfig_all_rows_or_nothing sample_newConfig _ sample_result eq_refl) as H.
    simpl all_limits in H. rewrite H. reflexivity.
  - exact (saveConfig_all_rows_or_nothing sample_brokenConfig _ sample_result eq_refl).
Defined.

(** X9: the ids deleted are exactly the ids read from the table that no
    limit of the configuration carries as the id of an existing row; each is
    listed once, and when the read gave no rows nothing is deleted. *)
Theorem saveConfig_deletes_the_dropped (config : NewConfig.t)
    (entries : list (string * UiProvider.t)) (result : Response (list string))
    (ls : list (string * UiLimit.t)) :
  NewConfig.providers config = Some entries -> all_limits entries = Some ls ->
  let deleted := deleted_ids (saveConfig (Some config) (Fulfilled result)) in
  List.NoDup deleted /\
  forall id,
    In id deleted <->
    In id (ids_read result) /\
    ~ exists kl, In kl ls /\ isNew (snd kl) = false /\ UiLimit.id (snd kl) = VStr id.
Proof.
  intros Hp Ha deleted. unfold deleted.
  destruct (saveConfig_spec config entries result ls Hp Ha) as [Hd _]. split.
  - rewrite Hd. apply List.NoDup_filter, set_of_NoDup.
  - intros id. now apply deleted_iff with (entries := entries).
Qed.

Lemma saveConfig_deletes_the_dropped_witness :
  In "c3" (deleted_ids (saveConfig (Some sample_newConfig) (Fulfilled sample_result)))
  /\ ~ In "c1" (deleted_ids (saveConfig (Some sample_newConfig) (Fulfilled sample_result))).
Proof.
  pose proof (saveConfig_deletes_the_dropped sample_newConfig _ sample_result _
                eq_refl eq_refl) as [_ H].
  split.
  - apply H. split.
    + simpl. auto.
    + intros [kl [Hin [_ E]]]. simpl in Hin.
      destruct Hin as [<-|[<-|[<-|[]]]]; discriminate.
  - intros C. apply H in C. destruct C as [_ C]. apply C.
    eexists. split; [left; reflexivity|]. split; reflexivity.
Defined.

(** X10: no id is deleted and sent in the upsert by the same call. *)
Theorem saveConfig_never_deletes_a_kept_row (newConfig : option NewConfig.t)
    (currentRows : settled (Response (list string))) (id : string) (row : Row.t) :
  In id (deleted_ids (saveConfig newConfig currentRows)) ->
  In row (upserted_rows (saveConfig newConfig currentRows)) ->
  Row.id row <> Some (VStr id).
Proof.
  intros Hd Hr E.
  destruct newConfig as [config|]; [|destruct Hd].
  destruct (NewConfig.providers config) as [entries|] eqn:Hp;
    [|unfold saveConfig in Hd; rewrite Hp in Hd; destruct Hd].
  destruct currentRows as [result|];
    [|unfold saveConfig in Hd; rewrite Hp in Hd; destruct Hd].
  destruct (all_limits entries) as [ls|] eqn:Ha.
  - destruct (saveConfig_spec config entries result ls Hp Ha) as [_ Hrows].
    apply (deleted_iff config entries result ls id Hp Ha) in Hd.
    destruct Hd as [_ Hno]. apply Hno.
    rewrite Hrows in Hr. apply in_map_iff in Hr. destruct Hr as [kl [<- Hkl]].
    exists kl. split; [assumption|].
    unfold row_of_pair, row_of in E. simpl in E.
    destruct (isNew (snd kl)); [discriminate|]. split; [reflexivity | congruence].
  - rewrite (saveConfig_throw config entries result Hp Ha) in Hd. destruct Hd.
Qed.

Lemma saveConfig_never_deletes_a_kept_row_witness :
  Row.id (row_of "openai" (sample_limit (VStr "c1") (VStr "250000") "tokens" 5))
  <> Some (VStr "c3").
Proof.
  apply (saveConfig_never_deletes_a_kept_row (Some sample_newConfig) sample_currentRows).
  - vm_compute. auto.
  - vm_compute. auto.
Defined.

(** X11: a configuration whose providers hold no limit at all sends no
    upsert and deletes every id read from the table. *)
Theorem saveConfig_without_limits_deletes_all (config : NewConfig.t)
    (entries : list (string * UiProvider.t)) (result : Response (list string)) :
  NewConfig.providers config = Some entries -> all_limits entries = Some nil ->
  upserted_rows (saveConfig (Some config) (Fulfilled result)) = nil /\
  forall id, In id (ids_read result) ->
             In id (deleted_ids (saveConfig (Some config) (Fulfilled result))).
Proof.
  intros Hp Ha. split.
  - now destruct (saveConfig_spec config entries result nil Hp Ha) as [_ ->].
  - intros id Hin.
    apply (deleted_iff config entries result nil id Hp Ha).
    split; [assumption|]. intros [kl [[] _]].
Qed.

Lemma saveConfig_without_limits_deletes_all_witness :
  saveConfig (Some sample_emptyConfig) (Fulfilled sample_result)
  = Delete ("c1" :: "c2" :: "c3" :: nil) :: nil
  /\ In "c2" (deleted_ids (saveConfig (Some sample_emptyConfig) (Fulfilled sample_result))).
Proof.
  split; [reflexivity|].
  refine (proj2 (saveConfig_without_limits_deletes_all sample_emptyConfig _ sample_result
                   eq_refl eq_refl) "c2" _).
  simpl. auto.
Defined.

(** ** More on resetProviderLimits *)

Section ResetComposition.

Lemma has_config_false (k : string) (configs : list Conf.t) :
  (forall conf, In conf configs -> Conf.id conf <> k) -> has_config k configs = false.
Proof.
  intros H. apply not_true_is_false. intros C. apply existsb_exists in C.
  destruct C as [conf [Hin E]]. apply String.eqb_eq in E. now apply (H conf).
Qed.

Lemma has_config_true (k : string) (configs : list Conf.t) :
  has_config k configs = true -> exists conf, In conf configs /\ Conf.id conf = k.
Proof.
  intros C. apply existsb_exists in C. destruct C as [conf [Hin E]].
  apply String.eqb_eq in E. eauto.
Qed.

Lemma reset_other_rows (now providerName : string) (db : Database) (k : string) :
  has_config k (select_ilike_provider db providerName) = false ->
  rate_limit_status (resetProviderLimits now providerName db) !! k
  = rate_limit_status db !! k.
Proof. intros H. now rewrite reset_lookup, H. Qed.

Lemma Database_eq (a b : Database) :
  rate_limit_configs a = rate_limit_configs b ->
  rate_limit_status a = rate_limit_status b -> a = b.
Proof. destruct a, b. simpl. now intros -> ->. Qed.

End ResetComposition.

(** X12: a reset leaves the table of configurations as it is, and leaves
    untouched every status row whose id belongs to no selected
    configuration; when no provider matches, the store is unchanged. *)
Theorem reset_touches_only_selected (now providerName : string) (db : Database) (k : string) :
  (forall conf, In conf (select_ilike_provider db providerName) -> Conf.id conf <> k) ->
  rate_limit_configs (resetProviderLimits now providerName db) = rate_limit_configs db /\
  rate_limit_status (resetProviderLimits now providerName db) !! k
  = rate_limit_status db !! k /\
  (select_ilike_provider db providerName = nil -> resetProviderLimits now providerName db = db).
Proof.
  intros H. split; [reflexivity|]. split.
  - apply reset_other_rows. now apply has_config_false.
  - intros E. apply Database_eq; [reflexivity|].
    unfold resetProviderLimits. simpl. now rewrite E.
Qed.

Lemma reset_touches_only_selected_witness :
  rate_limit_status (resetProviderLimits sample_now "anthropic" sample_db) !! "c1"%string
  = rate_limit_status sample_db !! "c1"%string
  /\ resetProviderLimits sample_now "mistral" sample_db = sample_db.
Proof.
  split.
  - refine (proj1 (proj2 (reset_touches_only_selected sample_now "anthropic" sample_db "c1" _))).
    intros conf [<-|[]]. discriminate.
  - refine (proj2 (proj2 (reset_touches_only_selected sample_now "mistral" sample_db "" _)) _).
    + intros conf [].
    + reflexivity.
Defined.

(** X13: a reset at a later time overrides an earlier reset of the same
    provider completely: the store is the one the later reset alone
    gives. *)
Theorem later_reset_overrides (earlier later providerName : string) (db : Database) :
  resetProviderLimits later providerName (resetProviderLimits earlier providerName db)
  = resetProviderLimits later providerName db.
Proof.
  apply Database_eq; [reflexivity|].
  apply map_eq. intros k. rewrite reset_lookup, select_after_reset, !reset_lookup.
  destruct (has_config k (select_ilike_provider db providerName)); [|reflexivity].
  simpl. now rewrite !latest_idempotent.
Qed.

(** X14: resets of two providers whose selected configurations share no id
    can be run in either order, at any two times, with the same result. *)
Theorem resets_of_disjoint_providers_commute (now1 now2 name1 name2 : string) (db : Database) :
  (forall c1 c2, In c1 (select_ilike_provider db name1) ->
                 In c2 (select_ilike_provider db name2) -> Conf.id c1 <> Conf.id c2) ->
  resetProviderLimits now1 name1 (resetProviderLimits now2 name2 db)
  = resetProviderLimits now2 name2 (resetProviderLimits now1 name1 db).
Proof.
  intros Hd. apply Database_eq; [reflexivity|].
  apply map_eq. intros k.
  rewrite (reset_lookup now1 name1), (reset_lookup now2 name2 (resetProviderLimits _ _ _)).
  rewrite !select_after_reset.
  destruct (has_config k (select_ilike_provider db name1)) eqn:H1;
    destruct (has_config k (select_ilike_provider db name2)) eqn:H2.
  - exfalso. apply has_config_true in H1. apply has_config_true in H2.
    destruct H1 as [c1 [I1 E1]]. destruct H2 as [c2 [I2 E2]].
    apply (Hd c1 c2 I1 I2). congruence.
  - rewrite (reset_other_rows now2 name2 db k H2).
    now rewrite reset_lookup, H1.
  - rewrite (reset_other_rows now1 name1 db k H1).
    now rewrite reset_lookup, H2.
  - now rewrite (reset_other_rows now1 name1 db k H1), (reset_other_rows now2 name2 db k H2).
Qed.

Lemma resets_of_disjoint_providers_commute_witness :
  resetProviderLimits sample_now "openai"
    (resetProviderLimits "2026-01-05T13:00:00.000Z" "anthropic" sample_db)
  = resetProviderLimits "2026-01-05T13:00:00.000Z" "anthropic"
      (resetProviderLimits sample_now "openai" sample_db).
Proof.
  apply resets_of_disjoint_providers_commute.
  intros c1 c2 [<-|[<-|[]]] [<-|[]]; discriminate.
Defined.

Section IlikeFacts.

Lemma ilike_plain_char (c : ascii) (p s : string) :
  negb (Ascii.eqb c "%") && negb (Ascii.eqb c "_") && negb (Ascii.eqb c "\") = true ->
  ilike (String c p) s
  = match s with
    | String d s' => Ascii.eqb (lower_char c) (lower_char d) && ilike p s'
    | EmptyString => false
    end.
Proof.
  destruct c as [[] [] [] [] [] [] [] []]; simpl; intros H; try discriminate H; reflexivity.
Qed.

Lemma ilike_percent_end (s : string) : ilike "%" s = true.
Proof.
  induction s as [|c s IH]; [reflexivity|].
  simpl in *. exact IH.
Qed.


Lemma ilike_plain_prefix (p : string) :
  plain p = true ->
  forall s1 s2, toLowerCase p = toLowerCase s1 -> ilike (p ++ "%") (s1 ++ s2) = true.
Proof.
  induction p as [|c p IH]; intros Hp s1 s2 E.
  - destruct s1; [|discriminate]. simpl. apply ilike_percent_end.
  - simpl in Hp. apply andb_true_iff in Hp. destruct Hp as [Hc Hp].
    destruct s1 as [|d s1]; [discriminate|]. unfold toLowerCase in E. simpl in E.
    injection E as Ec Es.
    change (ilike (String c (p ++ "%")) (String d (s1 ++ s2)) = true).
    rewrite (ilike_plain_char c _ _ Hc), Ec, Ascii.eqb_refl. simpl.
    now apply IH.
Qed.

End IlikeFacts.



(** X16: the provider name is read as a pattern: a name ending in [%]
    resets every configuration whose provider begins, up to letter case,
    with what stands before the [%], and the name [%] alone resets every
    configuration that has a provider. *)
Theorem prefix_pattern_resets_all_matches (now stem : string) (db : Database)
    (conf : Conf.t) (head tail : string) :
  plain stem = true ->
  In conf (rate_limit_configs db) ->
  Conf.provider conf = val (head ++ tail) ->
  toLowerCase stem = toLowerCase head ->
  exists row,
    rate_limit_status (resetProviderLimits now (stem ++ "%") db) !! Conf.id conf = Some row /\
    Status.window_start row = val now /\ Status.next_reset row = null.
Proof.
  intros Hp Hin Hc E.
  assert (S : In conf (select_ilike_provider db (stem ++ "%"))).
  { apply (select_In db _ (head ++ tail)%string); [assumption | assumption |].
    now apply ilike_plain_prefix. }
  rewrite reset_lookup, (has_config_In _ _ S). eexists. split; [reflexivity|]. now split.
Qed.

Lemma prefix_pattern_resets_all_matches_witness :
  exists row,
    rate_limit_status (resetProviderLimits sample_now "%" sample_db) !! "c2"%string = Some row /\
    Status.window_start row = val sample_now /\ Status.next_reset row = null.
Proof.
  apply (prefix_pattern_resets_all_matches sample_now "" sample_db
           (sample_conf "c2" "Anthropic" null (val 1000%Q)) "" "Anthropic").
  - reflexivity.
  - simpl. auto.
  - reflexivity.
  - reflexivity.
Defined.

Section ResetThenLoad.

Local Open Scope Q_scope.

Lemma keyed_statusMap (db : Database) (k : string) :
  keyed (rate_limit_status db) ->
  statusMap_of (select_status db) !! k = rate_limit_status db !! k.
Proof.
  intros Hk. rewrite statusMap_of_lookup. unfold select_status.
  destruct (List.find _ _) as [r|] eqn:F.
  - apply find_some in F. destruct F as [Hin E]. apply String.eqb_eq in E.
    apply in_rev, in_map_iff in Hin. destruct Hin as [[k' r'] [Er Hin]]. simpl in Er. subst r'.
    apply list_elem_of_In, elem_of_map_to_list in Hin.
    rewrite <- E, (Hk k' r Hin). now rewrite Hin.
  - destruct (rate_limit_status db !! k) as [r|] eqn:L; [|reflexivity].
    exfalso.
    assert (I : In r (rev (List.map snd (map_to_list (rate_limit_status db))))).
    { apply -> in_rev. apply in_map_iff. exists (k, r). split; [reflexivity|].
      now apply list_elem_of_In, elem_of_map_to_list. }
    pose proof (find_none _ _ F r I) as N. simpl in N.
    rewrite (Hk k r L), String.eqb_refl in N. discriminate.
Qed.

Lemma reset_keyed (now providerName : string) (db : Database) :
  keyed (rate_limit_status db) ->
  keyed (rate_limit_status (resetProviderLimits now providerName db)).
Proof.
  intros Hk k row. rewrite reset_lookup.
  destruct (has_config k (select_ilike_provider db providerName)).
  - now intros [= <-].
  - apply Hk.
Qed.

Lemma NoDup_ids_filter (f : Conf.t -> bool) (configs : list Conf.t) :
  List.NoDup (List.map Conf.id configs) -> List.NoDup (List.map Conf.id (List.filter f configs)).
Proof.
  induction configs as [|c rest IH]; intros H; [constructor|].
  simpl in H. apply List.NoDup_cons_iff in H. destruct H as [Hc Hr]. simpl.
  destruct (f c); [|now apply IH]. simpl. constructor; [|now apply IH].
  intros C. apply Hc. apply in_map_iff in C. destruct C as [x [E Hx]].
  apply filter_In in Hx. apply in_map_iff. exists x. tauto.
Qed.

Lemma NoDup_stdpp (l : list string) : List.NoDup l -> base.NoDup l.
Proof.
  induction 1 as [|x l Hx _ IH]; constructor; [|assumption].
  now rewrite list_elem_of_In.
Qed.

End ResetThenLoad.

(** X17: loaded back from the store right after a reset, every selected
    configuration with a positive limit in effect is shown at 100 per cent,
    whatever its status row held before; the ids of the configurations are
    unique and the status rows stored under their own id. *)
Theorem reset_then_load_shows_full (now providerName : string) (db : Database)
    (ui : UiConfig) (conf : Conf.t) (p : string) (l : Q) :
  keyed (rate_limit_status db) ->
  List.NoDup (List.map Conf.id (rate_limit_configs db)) ->
  loadRateLimitsConfig
    (ok (rate_limit_configs (resetProviderLimits now providerName db)))
    (ok (select_status (resetProviderLimits now providerName db))) = Some ui ->
  In conf (rate_limit_configs db) ->
  Conf.provider conf = val p -> ilike providerName p = true ->
  limit_in_effect conf = Some l -> (0 < l)%Q ->
  exists e,
    reports ui conf e /\ Limit.id e = Conf.id conf /\
    BackendStatus.percentage (Limit.backendStatus e) = Fin 100.
Proof.
  intros Hk Hnd Hload Hin Hp Hm Hl Hpos.
  pose proof (load_reports _ _ _ conf Hload Hin) as R.
  eexists. split; [exact R|]. split; [reflexivity|].
  unfold limit_of. cbn [Limit.backendStatus BackendStatus.percentage].
  simpl rows_of. rewrite keyed_statusMap by now apply reset_keyed.
  pose proof (select_In _ _ _ _ Hin Hp Hm) as Hsel.
  rewrite reset_lookup, (has_config_In _ _ Hsel).
  destruct (quota_of_limited
              (Some {| Status.config_id := Conf.id conf;
                       Status.remaining_tokens :=
                         latest Conf.token_limit (Conf.id conf)
                           (select_ilike_provider db providerName)
                           (opt_field Status.remaining_tokens
                              (rate_limit_status db !! Conf.id conf));
                       Status.remaining_requests :=
                         latest Conf.request_limit (Conf.id conf)
                           (select_ilike_provider db providerName)
                           (opt_field Status.remaining_requests
                              (rate_limit_status db !! Conf.id conf));
                       Status.window_start := val now;
                       Status.next_reset := null;
                       Status.last_updated := val now;
                       Status.reset_anchor_timestamp :=
                         anchor_of (rate_limit_status db !! Conf.id conf) |})
              conf l Hl) as [_ ->].
  assert (Hu : base.NoDup (List.map Conf.id (select_ilike_provider db providerName))).
  { apply NoDup_stdpp, NoDup_ids_filter, Hnd. }
  assert (E : nullish (remaining_read
                (Some {| Status.config_id := Conf.id conf;
                         Status.remaining_tokens :=
                           latest Conf.token_limit (Conf.id conf)
                             (select_ilike_provider db providerName)
                             (opt_field Status.remaining_tokens
                                (rate_limit_status db !! Conf.id conf));
                         Status.remaining_requests :=
                           latest Conf.request_limit (Conf.id conf)
                             (select_ilike_provider db providerName)
                             (opt_field Status.remaining_requests
                                (rate_limit_status db !! Conf.id conf));
                         Status.window_start := val now;
                         Status.next_reset := null;
                         Status.last_updated := val now;
                         Status.reset_anchor_timestamp :=
                           anchor_of (rate_limit_status db !! Conf.id conf) |}) conf) l = l).
  { unfold remaining_read, limit_in_effect in *.
    destruct (truthy_num (Conf.token_limit conf)) as [t|] eqn:T; simpl.
    - injection Hl as ->. apply truthy_num_val in T. destruct T as [Tv _].
      rewrite latest_unique by assumption. now rewrite Tv.
    - apply truthy_num_val in Hl. destruct Hl as [Rv _].
      rewrite latest_unique by assumption. now rewrite Rv. }
  rewrite E. now apply percentage_of_full.
Qed.

Lemma reset_then_load_shows_full_witness :
  exists ui e,
    loadRateLimitsConfig
      (ok (rate_limit_configs (resetProviderLimits sample_now "openai" sample_db)))
      (ok (select_status (resetProviderLimits sample_now "openai" sample_db))) = Some ui /\
    reports ui (sample_conf "c1" "OpenAI" (val 100000%Q) null) e /\
    BackendStatus.percentage (Limit.backendStatus e) = Fin 100.
Proof.
  eexists.
  assert (L : loadRateLimitsConfig
                (ok (rate_limit_configs (resetProviderLimits sample_now "openai" sample_db)))
                (ok (select_status (resetProviderLimits sample_now "openai" sample_db)))
              = Some _) by (vm_compute; reflexivity).
  assert (K : keyed (rate_limit_status sample_db)).
  { intros k row H. unfold sample_db in H. cbn [rate_limit_status] in H.
    apply lookup_insert_Some in H.
    destruct H as [[<- <-]|[_ H]]; [reflexivity | now rewrite lookup_empty in H]. }
  assert (U : List.NoDup (List.map Conf.id (rate_limit_configs sample_db))).
  { repeat constructor; simpl; intuition discriminate. }
  destruct (reset_then_load_shows_full sample_now "openai" sample_db _
              (sample_conf "c1" "OpenAI" (val 100000%Q) null) "OpenAI" 100000%Q K U L)
    as [e [R [_ P]]].
  - simpl. auto.
  - reflexivity.
  - reflexivity.
  - reflexivity.
  - reflexivity.
  - exists e. split; [exact L|]. split; assumption.
Defined.

(** ** Provider keys and the client's settings *)

Section ProviderKeys.



End ProviderKeys.



(** X19: whatever the model name, [detectProvider] answers with one of the
    four keys openai, anthropic, google and unknown, and each of them is a
    key that a save followed by a load gives back unchanged. *)
Theorem detectProvider_gives_a_stable_key (modelName : string) :
  In (detectProvider modelName) ("openai" :: "anthropic" :: "google" :: "unknown" :: nil)
  /\ toLowerCase (provider_of_key (detectProvider modelName)) = detectProvider modelName.
Proof.
  unfold detectProvider.
  destruct (includes modelName "gpt" || includes modelName "o1");
    [split; [simpl; auto | reflexivity]|].
  destruct (includes modelName "claude"); [split; [simpl; auto | reflexivity]|].
  destruct (includes modelName "gemini"); split; simpl; auto.
Qed.

(** X20: the value [getEnvValue] hands to [createClient] never contains the
    text PLACEHOLDER, as long as the build-time value does not: a
    placeholder that was not replaced is never used as a setting. *)
Theorem client_setting_is_never_a_placeholder (placeholder : string)
    (buildTimeValue : maybe string) :
  (forall s, buildTimeValue = val s -> includes s "PLACEHOLDER" = false) ->
  includes (or_empty (getEnvValue placeholder buildTimeValue)) "PLACEHOLDER" = false.
Proof.
  intros Hb. unfold getEnvValue.
  destruct (String.eqb placeholder "") eqn:E; simpl.
  - unfold or_empty. destruct buildTimeValue as [| |s]; try reflexivity.
    simpl. destruct (String.eqb s ""); [reflexivity | now apply Hb].
  - destruct (includes placeholder "PLACEHOLDER") eqn:I; simpl.
    + unfold or_empty. destruct buildTimeValue as [| |s]; try reflexivity.
      simpl. destruct (String.eqb s ""); [reflexivity | now apply Hb].
    + unfold or_empty. simpl. now rewrite E.
Qed.

Lemma client_setting_is_never_a_placeholder_witness :
  or_empty (getEnvValue "__SUPABASE_URL_PLACEHOLDER__" (val "http://localhost:54321"))
  = "http://localhost:54321"
  /\ includes (or_empty (getEnvValue "__SUPABASE_URL_PLACEHOLDER__"
                           (val "http://localhost:54321"))) "PLACEHOLDER" = false.
Proof.
  split; [reflexivity|].
  apply client_setting_is_never_a_placeholder.
  intros s [= <-]. reflexivity.
Defined.

(** ** A typed limit through save and load *)

Section TypedLimit.

Lemma parse_digits_acc (d : Decimal.uint) (acc : positive) (count : nat) :
  parse_digits 10 (NilEmpty.string_of_uint d) (Z.pos acc) count
  = (Z.pos (Pos.of_uint_acc d acc), (count + Decimal.nb_digits d)%nat, EmptyString).
Proof.
  revert acc count.
  induction d as [|d IH|d IH|d IH|d IH|d IH|d IH|d IH|d IH|d IH|d IH]; intros acc count;
    [simpl; now rewrite Nat.add_0_r | ..];
    cbn [NilEmpty.string_of_uint parse_digits Pos.of_uint_acc Decimal.nb_digits];
    match goal with
    | |- context [digit_value 10 ?c] =>
        let v := eval vm_compute in (digit_value 10 c) in
        change (digit_value 10 c) with v; cbv iota
    end;
    match goal with
    | |- parse_digits _ _ ?a _ = (Z.pos (Pos.of_uint_acc _ ?b), _, _) =>
        replace a with (Z.pos b) by lia
    end;
    rewrite IH; now rewrite Nat.add_succ_r.
Qed.

Lemma parse_digits_uint (d : Decimal.uint) (count : nat) :
  parse_digits 10 (NilEmpty.string_of_uint d) 0 count
  = (Z.of_N (Pos.of_uint d), (count + Decimal.nb_digits d)%nat, EmptyString).
Proof.
  revert count.
  induction d as [|d IH|d IH|d IH|d IH|d IH|d IH|d IH|d IH|d IH|d IH]; intros count;
    [simpl; now rewrite Nat.add_0_r | ..];
    cbn [NilEmpty.string_of_uint parse_digits Pos.of_uint Decimal.nb_digits];
    match goal with
    | |- context [digit_value 10 ?c] =>
        let v := eval vm_compute in (digit_value 10 c) in
        change (digit_value 10 c) with v; cbv iota
    end;
    [change (0 * 10 + 0)%Z with 0%Z; rewrite IH; now rewrite Nat.add_succ_r | ..];
    match goal with
    | |- parse_digits _ _ ?a _ = _ =>
        let v := eval vm_compute in a in change a with v
    end;
    rewrite parse_digits_acc; now rewrite Nat.add_succ_r.
Qed.

Lemma to_uint_shape (n : N) :
  exists c r, NilZero.string_of_uint (N.to_uint n) = String c r
              /\ NilZero.string_of_uint (N.to_uint n) = NilEmpty.string_of_uint (N.to_uint n)
              /\ Decimal.nb_digits (N.to_uint n) <> O
              /\ is_space c = false /\ c <> "-"%char /\ c <> "+"%char
              /\ startsWith (String c r) "0x" = false
              /\ startsWith (String c r) "0X" = false.
Proof.
  assert (U : N.to_uint n = Decimal.unorm (N.to_uint n)).
  { now rewrite <- (DecimalN.Unsigned.to_of (N.to_uint n)), DecimalN.Unsigned.of_to. }
  destruct (N.to_uint n) as [|d|d|d|d|d|d|d|d|d|d];
    try (simpl in U; discriminate U);
    try (eexists _, _; cbn [NilZero.string_of_uint NilEmpty.string_of_uint Decimal.nb_digits];
         repeat split; try reflexivity; try discriminate;
         destruct d; reflexivity).
Qed.

Lemma parseInt_decimal (n : Z) :
  (0 <= n <= 2 ^ 53)%Z -> parseInt (VStr (decimal n)) = Fin (inject_Z n).
Proof.
  intros Hn. unfold parseInt, ToString, parseInt_string, decimal.
  destruct (to_uint_shape (Z.to_N n)) as [c [r [E [E' [Hd [Hs [Hm [Hp [Hx HX]]]]]]]]].
  assert (T : trim_start (String c r) = String c r) by (simpl; now rewrite Hs).
  assert (S : strip_sign (String c r) = (false, String c r)).
  { unfold strip_sign.
    destruct c as [[] [] [] [] [] [] [] []]; try reflexivity; congruence. }
  rewrite E, T, S, Hx, HX. cbn [orb]. rewrite <- E, E', parse_digits_uint.
  destruct (Decimal.nb_digits (N.to_uint (Z.to_N n))) as [|k]; [congruence|].
  cbn [Nat.add signed].
  change (Pos.of_uint (N.to_uint (Z.to_N n))) with (N.of_uint (N.to_uint (Z.to_N n))).
  rewrite DecimalN.Unsigned.of_to, Z2N.id by lia.
  apply b64_exact; [lia | reflexivity].
Qed.

End TypedLimit.

(** X21: a limit typed as the decimal digits of a whole number from 1 to
    [2^53] is saved as that number, as the token limit when the unit is
    [tokens] and as the request limit for any other unit, the other limit
    being null; a configuration holding these values is loaded with the
    same limit, and with the unit [tokens] or else [requests]. *)
Theorem typed_limit_through_save_and_load (providerKey : string) (limit : UiLimit.t) (n : Z)
    (statusMap : gmap string Status.t) (conf : Conf.t) :
  UiLimit.limit limit = VStr (decimal n) -> (0 < n <= 2 ^ 53)%Z ->
  Row.token_limit (row_of providerKey limit)
  = (if is_tokens limit then val (Fin (inject_Z n)) else null) /\
  Row.request_limit (row_of providerKey limit)
  = (if is_tokens limit then null else val (Fin (inject_Z n))) /\
  (Conf.token_limit conf = (if is_tokens limit then val (inject_Z n) else null) ->
   Conf.request_limit conf = (if is_tokens limit then null else val (inject_Z n)) ->
   Limit.limit (limit_of statusMap conf) = inject_Z n /\
   Limit.unit (limit_of statusMap conf)
   = (if is_tokens limit then "tokens" else "requests")%string).
Proof.
  intros Hl Hn.
  assert (P : parseInt (UiLimit.limit limit) = Fin (inject_Z n))
    by (rewrite Hl; apply parseInt_decimal; lia).
  assert (N : truthy_num (val (inject_Z n)) = Some (inject_Z n)).
  { simpl. destruct (Qeq_bool (inject_Z n) 0) eqn:E; [|reflexivity].
    apply Qeq_bool_iff in E. unfold Qeq in E. simpl in E. lia. }
  unfold row_of. cbn [Row.token_limit Row.request_limit]. rewrite P.
  destruct (is_tokens limit); (split; [reflexivity|]); (split; [reflexivity|]);
    intros Ht Hr; unfold limit_of; cbn [Limit.limit Limit.unit].
  - rewrite (quota_of_tokens _ conf (inject_Z n)) by (now rewrite Ht). now split.
  - rewrite (quota_of_requests _ conf (inject_Z n)) by (now rewrite ?Ht, ?Hr). now split.
Qed.

Lemma typed_limit_through_save_and_load_witness :
  Row.token_limit (row_of "openai" (sample_limit (VStr "c1") (VStr "250000") "tokens" 5))
  = val (Fin 250000) /\
  Limit.limit (limit_of ∅ (conf_with_window 300)) = 250000%Q /\
  Limit.unit (limit_of ∅ (conf_with_window 300)) = "tokens"%string.
Proof.
  destruct (typed_limit_through_save_and_load "openai"
              (sample_limit (VStr "c1") (VStr "250000") "tokens" 5) 250000 ∅
              (conf_with_window 300))
    as [H1 [_ H2]].
  - reflexivity.
  - lia.
  - split; [exact H1 | apply H2; reflexivity].
Defined.
